(** * El Wafaa Shipping: rate aggregation, label purchase and the order ledger

    A shallow embedding of the request handling code of the shipping server
    (getRatesForPackages, purchaseLabel, purchaseAllLabels, printLabels,
    printPackingSlip and the three API routes of the HTTP handler), with the
    properties of its specification stated and proved over it. The server
    exists in two versions; the later one adds the ledger, the packing slip
    and the route that reads an order, and is the one embedded here;
    getRatesForPackages, purchaseLabel, purchaseAllLabels and printLabels
    are the same in both.

    Conventions of the embedding:
    - a JavaScript string is a [string] holding its UTF-8 bytes;
    - a JavaScript number is an IEEE 754 binary64 value, [spec_float] at
      precision 53 and maximal exponent 1024;
    - a call that is awaited is a function of the environment [Env.t] and of
      the state; a thrown [Error] is the [Throw] outcome carrying
      [error.message];
    - request bodies and the objects that the remote services send have the
      fields of their interfaces, as records; a field that may be missing
      or [null] is an [option];
    - the [Map] used for grouping keeps insertion order and is an association
      list, the ledger [completedOrders] is only looked up by key and is a
      [gmap];
    - a request is handled from its first statement to its response
      ([purchase], [rates], [order]); the handler of a purchase gives way to
      other requests where it awaits the carrier, which [arrive], [resume]
      and [step] describe;
    - [console.log] and [console.error] write to no state the server reads
      back and are left out. *)

From Stdlib Require Import ZArith NArith String Ascii List Bool Lia DecimalString.
From Stdlib Require Import Floats.SpecFloat.
From stdpp Require Import base option list gmap strings.
Import ListNotations.

Local Open Scope Z_scope.
Local Open Scope string_scope.

(** ** Numbers: binary64 arithmetic, [parseFloat] and [Number.prototype.toFixed] *)

Module Number.

Definition float64 : Type := spec_float.

Definition prec : Z := 53.
Definition emax : Z := 1024.

Definition NaN : float64 := S754_nan.
Definition zero : float64 := S754_zero false.

(** [x + y] on numbers. *)
Definition add (x y : float64) : float64 := SFadd prec emax x y.

(** The Number value for the positive rational [n / d], or for its opposite
    when [neg] is set: the nearest binary64, ties to even. *)
Definition of_ratio (neg : bool) (n d : positive) : float64 :=
  SFdiv prec emax (S754_finite neg n 0) (S754_finite false d 0).

(** The Number value for the integer [z]. *)
Definition of_Z (z : Z) : float64 := binary_normalize prec emax z 0 false.

(** *** Decimal digits *)

Definition digit_val (c : ascii) : option N :=
  let n := N_of_ascii c in
  if ((48 <=? n) && (n <=? 57))%N then Some (n - 48)%N else None.

Fixpoint span_digits (l : list ascii) : list N * list ascii :=
  match l with
  | [] => ([], [])
  | c :: t =>
      match digit_val c with
      | Some d => let (ds, r) := span_digits t in (d :: ds, r)
      | None => ([], l)
      end
  end.

Definition digits_to_N (ds : list N) : N :=
  fold_left (fun acc d => (10 * acc + d)%N) ds 0%N.

(** Decimal rendering of a natural number. *)
Definition decimal (n : N) : string := NilEmpty.string_of_uint (N.to_uint n).

(** *** parseFloat *)

Definition ascii_space (a : ascii) : bool :=
  let n := N_of_ascii a in
  ((9 <=? n) && (n <=? 13) || (n =? 32))%N.

(** U+00A0. *)
Definition two_byte_space (a b : ascii) : bool :=
  ((N_of_ascii a =? 194) && (N_of_ascii b =? 160))%N.

(** U+1680, U+2000..U+200A, U+2028, U+2029, U+202F, U+205F, U+3000, U+FEFF. *)
Definition three_byte_space (a b c : ascii) : bool :=
  let x := N_of_ascii a in
  let y := N_of_ascii b in
  let z := N_of_ascii c in
  ((x =? 225) && (y =? 154) && (z =? 128)
   || (x =? 226) && (y =? 128)
      && ((128 <=? z) && (z <=? 138) || (z =? 168) || (z =? 169) || (z =? 175))
   || (x =? 226) && (y =? 129) && (z =? 159)
   || (x =? 227) && (y =? 128) && (z =? 128)
   || (x =? 239) && (y =? 187) && (z =? 191))%N.

(** TrimString(s, start): leading white space and line terminators go. *)
Fixpoint trim_start (l : list ascii) : list ascii :=
  match l with
  | [] => []
  | a :: t1 =>
      if ascii_space a then trim_start t1
      else
        match t1 with
        | [] => l
        | b :: t2 =>
            if two_byte_space a b then trim_start t2
            else
              match t2 with
              | [] => l
              | c :: t3 => if three_byte_space a b c then trim_start t3 else l
              end
        end
  end.

Fixpoint starts_with (p l : list ascii) : bool :=
  match p, l with
  | [], _ => true
  | _ :: _, [] => false
  | a :: p', b :: l' => Ascii.eqb a b && starts_with p' l'
  end.

(** The mathematical value of the longest prefix that is a
    StrUnsignedDecimalLiteral: none, Infinity, or [m * 10 ^ e10]. *)
Inductive literal : Type :=
  | NoLiteral
  | LitInfinity
  | LitDecimal (m : N) (e10 : Z).

(** The value of an ExponentPart at the head of [l]; 0 when there is none
    (an [e] which no digit follows is not part of the literal). *)
Definition exponent_part (l : list ascii) : Z :=
  match l with
  | e :: r =>
      if Ascii.eqb e "e" || Ascii.eqb e "E" then
        let '(neg, r') :=
          match r with
          | c :: r' =>
              if Ascii.eqb c "+" then (false, r')
              else if Ascii.eqb c "-" then (true, r')
              else (false, r)
          | [] => (false, r)
          end in
        match span_digits r' with
        | ([], _) => 0
        | (ds, _) =>
            let v := Z.of_N (digits_to_N ds) in if neg then - v else v
        end
      else 0
  | [] => 0
  end.

Definition unsigned_literal (l : list ascii) : literal :=
  if starts_with (list_ascii_of_string "Infinity") l then LitInfinity
  else
    let (ip, r) := span_digits l in
    match r with
    | c :: r1 =>
        if Ascii.eqb c "." then
          let (fp, r2) := span_digits r1 in
          match ip, fp with
          | [], [] => NoLiteral
          | _, _ =>
              LitDecimal (digits_to_N (ip ++ fp))
                         (exponent_part r2 - Z.of_nat (length fp))
          end
        else
          match ip with
          | [] => NoLiteral
          | _ => LitDecimal (digits_to_N ip) (exponent_part r)
          end
    | [] =>
        match ip with
        | [] => NoLiteral
        | _ => LitDecimal (digits_to_N ip) 0
        end
    end.

(** The Number value for [m * 10 ^ e10], signed. *)
Definition number_value (neg : bool) (m : N) (e10 : Z) : float64 :=
  match m with
  | N0 => S754_zero neg
  | Npos p =>
      if (0 <=? e10)%Z then of_ratio neg (p * Z.to_pos (10 ^ e10)) 1
      else of_ratio neg p (Z.to_pos (10 ^ (- e10)))
  end.

Definition parseFloat (s : string) : float64 :=
  let l := trim_start (list_ascii_of_string s) in
  let '(neg, u) :=
    match l with
    | c :: t =>
        if Ascii.eqb c "+" then (false, t)
        else if Ascii.eqb c "-" then (true, t)
        else (false, l)
    | [] => (false, l)
    end in
  match unsigned_literal u with
  | NoLiteral => NaN
  | LitInfinity => S754_infinity neg
  | LitDecimal m e10 => number_value neg m e10
  end.

(** *** Number.prototype.toFixed *)

(** [x >= 10 ^ 21] for [x = m * 2 ^ e]. *)
Definition ge_1e21 (m : positive) (e : Z) : bool :=
  if (0 <=? e)%Z then (10 ^ 21 <=? Z.pos m * 2 ^ e)%Z
  else (10 ^ 21 * 2 ^ (- e) <=? Z.pos m)%Z.

(** The integer [n] for which [n / 10 ^ f - x] is as close to zero as
    possible, the larger one when there are two, for [x = m * 2 ^ e]. *)
Definition nearest_scaled (m : positive) (e : Z) (f : nat) : Z :=
  let scaled := (Z.pos m * 10 ^ Z.of_nat f)%Z in
  if (0 <=? e)%Z then (scaled * 2 ^ e)%Z
  else ((2 * scaled + 2 ^ (- e)) / 2 ^ (- e + 1))%Z.

Fixpoint zeros (k : nat) : string :=
  match k with
  | O => ""
  | S k' => String "0" (zeros k')
  end.

(** The digits of [n] with a point before the last [f] of them, zeros put in
    front so that a digit stands before the point. *)
Definition fixed_digits (n : Z) (f : nat) : string :=
  let m := decimal (Z.to_N n) in
  match f with
  | O => m
  | S _ =>
      let m' := if (String.length m <=? f)%nat
                then zeros (S f - String.length m) ++ m else m in
      let k := String.length m' in
      substring 0 (k - f) m' ++ "." ++ substring (k - f) f m'
  end.

(** Number::toString of an integer [X >= 10 ^ 21] that is the value of the
    number [x], in exponential notation: the digits are those of the shortest
    [s] (of [k] digits, [k] tried from one up) for which [s * 10 ^ (n - k)]
    has [x] as its Number value; of two such [s] the one nearest to [X], the
    even one on a tie. [shortest_digits] returns [s * 10 ^ (n - k)]. *)
Definition round_trips (x : float64) (v : Z) : bool :=
  SFeqb (of_Z v) x.

Fixpoint shortest_digits (fuel : nat) (x : float64) (X : Z) (nd k : nat) : Z :=
  match fuel with
  | O => X
  | S fuel' =>
      let p := (10 ^ Z.of_nat (nd - k))%Z in
      let lo := (X / p)%Z in
      let hi := (lo + 1)%Z in
      match round_trips x (lo * p), round_trips x (hi * p) with
      | true, true =>
          match (X - lo * p ?= hi * p - X)%Z with
          | Lt => lo * p
          | Gt => hi * p
          | Eq => if Z.even lo then lo * p else hi * p
          end
      | true, false => lo * p
      | false, true => hi * p
      | false, false => shortest_digits fuel' x X nd (S k)
      end%Z
  end.

Fixpoint strip_zeros (l : list ascii) : list ascii :=
  match l with
  | c :: t => if Ascii.eqb c "0" then strip_zeros t else l
  | [] => []
  end.

Definition strip_trailing_zeros (s : string) : string :=
  string_of_list_ascii (rev (strip_zeros (rev (list_ascii_of_string s)))).

Definition toString_large (x : float64) (X : Z) : string :=
  let nd := String.length (decimal (Z.to_N X)) in
  let all := decimal (Z.to_N (shortest_digits (nd - 1) x X nd 1)) in
  let n := String.length all in
  let exponent := "e+" ++ decimal (N.of_nat (n - 1)) in
  match strip_trailing_zeros all with
  | String d EmptyString => String d exponent
  | String d rest => String d ("." ++ rest ++ exponent)
  | EmptyString => exponent
  end.

(** [x.toFixed(f)] for [0 <= f <= 100] (the server passes 2). *)
Definition toFixed (x : float64) (f : nat) : string :=
  match x with
  | S754_nan => "NaN"
  | S754_infinity neg => if neg then "-Infinity" else "Infinity"
  | S754_zero _ => fixed_digits 0 f
  | S754_finite neg m e =>
      (if neg then "-" else "")
      ++ (if ge_1e21 m e
          then toString_large (S754_finite false m e) (Z.shiftl (Z.pos m) e)
          else fixed_digits (nearest_scaled m e f) f)
  end.

End Number.

(** ** Outcomes of calls and replies of the remote services *)

(** What a call of an [async] function settles to: a value, or a thrown
    [Error] with its [message]. *)
Inductive Outcome (A : Type) : Type :=
  | Return (value : A)
  | Throw (message : string).
Arguments Return {A} value.
Arguments Throw {A} message.

(** [shippoRequest] and [printNodeRequest] resolve to [{status, data}], where
    [data] is the parsed JSON object of the body, or the body text when it
    does not parse; they reject when the connection fails. *)
Inductive Body (D : Type) : Type :=
  | Text (body : string)
  | Json (object : D).
Arguments Text {D} body.
Arguments Json {D} object.

Inductive Reply (D : Type) : Type :=
  | NetworkError (message : string)
  | Response (status : Z) (data : Body D).
Arguments NetworkError {D} message.
Arguments Response {D} status data.

(** [data.field]: [undefined] on a text body. *)
Definition field {D A : Type} (f : D -> option A) (data : Body D) : option A :=
  match data with
  | Text _ => None
  | Json o => f o
  end.

(** [value || fallback] for an optional string: [undefined], [null] and the
    empty string are falsy. *)
Definition or_else (value : option string) (fallback : string) : string :=
  match value with
  | Some (String c s) => String c s
  | Some EmptyString | None => fallback
  end.

(** [result.status !== 201 && result.status !== 200] *)
Definition not_success (status : Z) : bool :=
  negb (status =? 201)%Z && negb (status =? 200)%Z.

(** ** Data of the carrier service *)

Module ServiceLevel.
Record t : Type := { token : string; name : string }.
End ServiceLevel.

(** A rate offer of a shipment. *)
Module Rate.
Record t : Type := {
  provider : string;
  servicelevel : ServiceLevel.t;
  estimated_days : option Z;
  amount : string;
  currency : string;
  object_id : string
}.
End Rate.

(** The JSON object answering [POST /shipments]. *)
Module ShipmentData.
Record t : Type := {
  detail : option string;
  object_id : option string;
  rates : option (list Rate.t)
}.
End ShipmentData.

(** The JSON object answering [POST /transactions]. *)
Module TransactionData.
Record t : Type := {
  detail : option string;
  status : option string;
  messages : option (list (option string));   (* the [text] of each message *)
  tracking_number : option string;
  label_url : option string;
  tracking_url_provider : option string;
  object_id : option string
}.
End TransactionData.

(** ** Data of the server *)

Module Package.
Record t : Type := {
  length : Number.float64;
  width : Number.float64;
  height : Number.float64;
  weight : Number.float64;
  description : option string
}.
End Package.

Module Destination.
Record t : Type := {
  name : string;
  street : string;
  street2 : option string;
  city : string;
  state : string;
  zip : string;
  phone : option string;
  email : option string
}.
End Destination.

Module Address.
Record t : Type := {
  name : string;
  street1 : string;
  street2 : option string;
  city : string;
  state : string;
  zip : string;
  country : string;
  phone : option string;
  email : option string
}.
End Address.

Definition ORIGIN_ADDRESS : Address.t := {|
  Address.name := "Wafaa Demian";
  Address.street1 := "90 W 22nd St";
  Address.street2 := None;
  Address.city := "Bayonne";
  Address.state := "NJ";
  Address.zip := "07002";
  Address.country := "US";
  Address.phone := None;
  Address.email := None
|}.

Module Parcel.
Record t : Type := {
  length : Number.float64;
  width : Number.float64;
  height : Number.float64;
  distance_unit : string;
  weight : Number.float64;
  mass_unit : string
}.
End Parcel.

(** The body of [POST /shipments]. *)
Module ShipmentRequest.
Record t : Type := {
  address_from : Address.t;
  address_to : Address.t;
  parcels : list Parcel.t;
  async : bool
}.
End ShipmentRequest.

(** What the callback of [packages.map] returns for a package. *)
Module Shipment.
Record t : Type := {
  packageIndex : nat;
  shipment_id : option string;
  rates : list Rate.t
}.
End Shipment.

(** An element of a quote's [package_rates], and of the [package_rates] of a
    purchase request. *)
Module PackageRate.
Record t : Type := {
  packageIndex : nat;
  rate_id : string;
  amount : string
}.
End PackageRate.

(** A value of [rateMap]. *)
Module Group.
Record t : Type := {
  provider : string;
  servicelevel : ServiceLevel.t;
  estimated_days : option Z;
  total_amount : Number.float64;
  currency : string;
  package_rates : list PackageRate.t
}.
End Group.

(** An element of [completeRates]: the aggregated quote. *)
Module Quote.
Record t : Type := {
  key : string;
  provider : string;
  servicelevel : ServiceLevel.t;
  estimated_days : option Z;
  amount : string;
  currency : string;
  package_rates : list PackageRate.t
}.
End Quote.

(** ** The insertion-ordered [Map] of the aggregation *)

Section OrderedMap.
Context {V : Type}.

Fixpoint Map_get (key : string) (m : list (string * V)) : option V :=
  match m with
  | [] => None
  | (k, v) :: m' => if String.eqb k key then Some v else Map_get key m'
  end.

Definition Map_has (key : string) (m : list (string * V)) : bool :=
  match Map_get key m with
  | Some _ => true
  | None => false
  end.

(** The value under [key] changed in place: what a mutation of the object
    that [rateMap.get(key)] returns does to the map. *)
Fixpoint Map_alter (f : V -> V) (key : string) (m : list (string * V))
  : list (string * V) :=
  match m with
  | [] => []
  | (k, v) :: m' =>
      if String.eqb k key then (k, f v) :: m'
      else (k, v) :: Map_alter f key m'
  end.

(** [m.set(key, v)]: a present key keeps its place, a new one goes last. *)
Definition Map_set (key : string) (v : V) (m : list (string * V))
  : list (string * V) :=
  if Map_has key m then Map_alter (fun _ => v) key m
  else (m ++ [(key, v)])%list.
End OrderedMap.

(** ** Quotes: [getRatesForPackages] *)

Definition addressTo (destination : Destination.t) : Address.t := {|
  Address.name := Destination.name destination;
  Address.street1 := Destination.street destination;
  Address.street2 := Some (or_else (Destination.street2 destination) "");
  Address.city := Destination.city destination;
  Address.state := Destination.state destination;
  Address.zip := Destination.zip destination;
  Address.country := "US";
  Address.phone := Destination.phone destination;
  Address.email := Destination.email destination
|}.

Definition shipmentData (destination : Destination.t) (pkg : Package.t)
  : ShipmentRequest.t := {|
  ShipmentRequest.address_from := ORIGIN_ADDRESS;
  ShipmentRequest.address_to := addressTo destination;
  ShipmentRequest.parcels :=
    [ {| Parcel.length := Package.length pkg;
         Parcel.width := Package.width pkg;
         Parcel.height := Package.height pkg;
         Parcel.distance_unit := "in";
         Parcel.weight := Package.weight pkg;
         Parcel.mass_unit := "lb" |} ];
  ShipmentRequest.async := false
|}.

(** The key of [rateMap] for an offer:
    [`${rate.provider}-${rate.servicelevel.token}`]. *)
Definition rate_key (rate : Rate.t) : string :=
  Rate.provider rate ++ "-" ++ ServiceLevel.token (Rate.servicelevel rate).

(** The value put under a key that [rateMap] does not have yet. *)
Definition new_group (rate : Rate.t) : Group.t := {|
  Group.provider := Rate.provider rate;
  Group.servicelevel := Rate.servicelevel rate;
  Group.estimated_days := Rate.estimated_days rate;
  Group.total_amount := Number.zero;
  Group.currency := Rate.currency rate;
  Group.package_rates := []
|}.

(** [grouped.total_amount += parseFloat(rate.amount)] and
    [grouped.package_rates.push({...})]. *)
Definition add_to_group (packageIndex : nat) (rate : Rate.t)
    (grouped : Group.t) : Group.t := {|
  Group.provider := Group.provider grouped;
  Group.servicelevel := Group.servicelevel grouped;
  Group.estimated_days := Group.estimated_days grouped;
  Group.total_amount :=
    Number.add (Group.total_amount grouped)
               (Number.parseFloat (Rate.amount rate));
  Group.currency := Group.currency grouped;
  Group.package_rates :=
    (Group.package_rates grouped
     ++ [ {| PackageRate.packageIndex := packageIndex;
             PackageRate.rate_id := Rate.object_id rate;
             PackageRate.amount := Rate.amount rate |} ])%list
|}.

(** The body of the inner [forEach]: one offer of the package
    [packageIndex] goes into its group. *)
Definition add_rate (packageIndex : nat)
    (rateMap : list (string * Group.t)) (rate : Rate.t)
  : list (string * Group.t) :=
  let key := rate_key rate in
  let rateMap :=
    if negb (Map_has key rateMap) then Map_set key (new_group rate) rateMap
    else rateMap in
  Map_alter (add_to_group packageIndex rate) key rateMap.

(** The body of the outer [forEach]. *)
Definition add_shipment (rateMap : list (string * Group.t))
    (shipment : Shipment.t) : list (string * Group.t) :=
  fold_left (add_rate (Shipment.packageIndex shipment))
            (Shipment.rates shipment) rateMap.

Definition group_rates (shipments : list Shipment.t)
  : list (string * Group.t) :=
  fold_left add_shipment shipments [].

Definition quote_of (key : string) (value : Group.t) : Quote.t := {|
  Quote.key := key;
  Quote.provider := Group.provider value;
  Quote.servicelevel := Group.servicelevel value;
  Quote.estimated_days := Group.estimated_days value;
  Quote.amount := Number.toFixed (Group.total_amount value) 2;
  Quote.currency := Group.currency value;
  Quote.package_rates := Group.package_rates value
|}.

(** The last [forEach]: the groups with one reference per package, in the
    order of the map. *)
Definition complete_rates (packages_length : nat)
    (rateMap : list (string * Group.t)) : list Quote.t :=
  fold_left
    (fun completeRates entry =>
       if (List.length (Group.package_rates (snd entry)) =? packages_length)%nat
       then (completeRates ++ [quote_of (fst entry) (snd entry)])%list
       else completeRates)
    rateMap [].

(** [Promise.all]: rejected with the reason of the promise that rejects
    first, fulfilled with all the values in the order of the promises.
    A promise comes with the time at which it settles; of two rejections
    at one time the earlier promise is taken. *)
Fixpoint first_rejection {A : Type} (promises : list (nat * Outcome A))
  : option (nat * string) :=
  match promises with
  | [] => None
  | (_, Return _) :: rest => first_rejection rest
  | (t, Throw m) :: rest =>
      match first_rejection rest with
      | Some (t', m') => if (t' <? t)%nat then Some (t', m') else Some (t, m)
      | None => Some (t, m)
      end
  end.

Fixpoint fulfilled {A : Type} (promises : list (nat * Outcome A)) : list A :=
  match promises with
  | [] => []
  | (_, Return v) :: rest => v :: fulfilled rest
  | (_, Throw _) :: rest => fulfilled rest
  end.

Definition Promise_all {A : Type} (promises : list (nat * Outcome A))
  : Outcome (list A) :=
  match first_rejection promises with
  | Some (_, m) => Throw m
  | None => Return (fulfilled promises)
  end.

(** A reply with a success status, and the offer list it carries. *)
Definition succeeded (reply : Reply ShipmentData.t) : bool :=
  match reply with
  | Response status _ => negb (not_success status)
  | NetworkError _ => false
  end.

Definition offers (reply : Reply ShipmentData.t) : list Rate.t :=
  match reply with
  | Response _ data => default [] (field ShipmentData.rates data)
  | NetworkError _ => []
  end.

(** What the callback of [packages.map] returns on a reply with a success
    status. *)
Definition shipment_of (index : nat) (reply : Reply ShipmentData.t)
  : Shipment.t := {|
  Shipment.packageIndex := index;
  Shipment.shipment_id :=
    match reply with
    | Response _ data => field ShipmentData.object_id data
    | NetworkError _ => None
    end;
  Shipment.rates := offers reply
|}.

(** The sum that [total_amount] accumulates over the amounts of a group, in
    their order, from 0. *)
Definition float_sum (amounts : list string) : Number.float64 :=
  fold_left (fun total amount => Number.add total (Number.parseFloat amount))
            amounts Number.zero.

(** The offers of a list that go under a key, and the number of references
    a key has in [rateMap] (0 without the key). *)
Definition under (key : string) (rates : list Rate.t) : list Rate.t :=
  filter (fun rate => rate_key rate = key) rates.

Definition references (key : string) (rateMap : list (string * Group.t)) : nat :=
  match Map_get key rateMap with
  | Some grouped => List.length (Group.package_rates grouped)
  | None => 0
  end.

Section Quotes.
(** The carrier's rate service: the reply to the [POST /shipments] issued
    for the package at an index, and the time at which it arrives. *)
Variable post_shipments :
  nat -> ShipmentRequest.t -> nat * Reply ShipmentData.t.

(** The callback of [packages.map]. *)
Definition create_shipment (destination : Destination.t)
    (index : nat) (pkg : Package.t) : nat * Outcome Shipment.t :=
  let '(settled, result) := post_shipments index (shipmentData destination pkg) in
  (settled,
   match result with
   | NetworkError message => Throw message
   | Response status data =>
       if not_success status then
         Throw (or_else (field ShipmentData.detail data)
                        ("Failed to create shipment for package "
                         ++ Number.decimal (N.of_nat (index + 1))))
       else
         Return {| Shipment.packageIndex := index;
                   Shipment.shipment_id := field ShipmentData.object_id data;
                   Shipment.rates :=
                     default [] (field ShipmentData.rates data) |}
   end).

Definition getRatesForPackages (packages : list Package.t)
    (destination : Destination.t) : Outcome (list Quote.t) :=
  let shipmentPromises := imap (create_shipment destination) packages in
  match Promise_all shipmentPromises with
  | Throw message => Throw message
  | Return shipments =>
      Return (complete_rates (List.length packages) (group_rates shipments))
  end.

(** The reply to the shipment of the package at [index]. *)
Definition reply_to (destination : Destination.t) (index : nat)
    (pkg : Package.t) : Reply ShipmentData.t :=
  snd (post_shipments index (shipmentData destination pkg)).

(** Every shipment-creation call of the request comes back with a success
    status. *)
Definition all_succeed (packages : list Package.t)
    (destination : Destination.t) : Prop :=
  forall index pkg, packages !! index = Some pkg ->
    succeeded (reply_to destination index pkg) = true.

(** The shipments of a request whose calls all succeed. *)
Definition shipments_of (packages : list Package.t)
    (destination : Destination.t) : list Shipment.t :=
  imap (fun index pkg => shipment_of index (reply_to destination index pkg))
       packages.
End Quotes.

(** ** Labels, print jobs, orders and the state of the server *)

(** What [purchaseLabel] returns. *)
Module LabelInfo.
Record t : Type := {
  tracking_number : option string;
  label_url : option string;
  tracking_url : option string;
  transaction_id : option string
}.
End LabelInfo.

(** An element of [results] in [purchaseAllLabels]. *)
Module LabelResult.
Record t : Type := {
  packageIndex : nat;
  tracking_number : option string;
  label_url : option string;
  tracking_url : option string
}.
End LabelResult.

(** The body of [POST /transactions]. *)
Module TransactionRequest.
Record t : Type := {
  rate : string;
  label_file_type : string;
  async : bool
}.
End TransactionRequest.

(** The body of [POST /printjobs]. *)
Module PrintJob.
Record t : Type := {
  printerId : Z;
  title : string;
  contentType : string;
  content : option string;
  source : string
}.
End PrintJob.

(** A value of [completedOrders]. *)
Module OrderData.
Record t : Type := {
  method : string;
  delivery : string;
  total : string;
  labels : list LabelResult.t;
  completed_at : string
}.
End OrderData.

(** The body of [POST /api/purchase]. *)
Module PurchaseRequest.
Record t : Type := {
  package_rates : list PackageRate.t;
  packages : list Package.t;
  destination : Destination.t;
  pkgId : option string;
  selectedRate : option Quote.t
}.
End PurchaseRequest.

(** The body of [POST /api/purchase] as it may come: [packages] can be
    absent, or hold [null] where a package is expected. The other fields
    are as in [PurchaseRequest.t]. *)
Module PurchaseBody.
Record t : Type := {
  package_rates : list PackageRate.t;
  packages : option (list (option Package.t));
  destination : Destination.t;
  pkgId : option string;
  selectedRate : option Quote.t
}.

(** The body of a request of the shape of [PurchaseRequest.t]. *)
Definition of_request (req : PurchaseRequest.t) : t := {|
  package_rates := PurchaseRequest.package_rates req;
  packages := Some (map Some (PurchaseRequest.packages req));
  destination := PurchaseRequest.destination req;
  pkgId := PurchaseRequest.pkgId req;
  selectedRate := PurchaseRequest.selectedRate req
|}.
End PurchaseBody.

(** What the server writes with [res.writeHead] and [res.end]. *)
Inductive Payload : Type :=
  | ErrorBody (error : string)
  | RatesBody (rates : list Quote.t)
  | LabelsBody (success : bool) (labels : list LabelResult.t)
  | OrderBody (exists_ : bool) (order : option OrderData.t).

Record HttpResponse : Type := { statusCode : Z; payload : Payload }.

(** The state that outlives a request: the ledger [completedOrders], and, to
    count the remote calls, the rate ids posted to the carrier's
    [/transactions] and the jobs posted to the printer service, oldest
    first. *)
Record World : Type := {
  completedOrders : gmap string OrderData.t;
  transactions : list string;
  printjobs : list PrintJob.t
}.

Definition initial : World :=
  {| completedOrders := ∅; transactions := []; printjobs := [] |}.

(** [array.join(separator)] of strings; [undefined] joins as the empty
    string. *)
Fixpoint join (separator : string) (l : list (option string)) : string :=
  match l with
  | [] => ""
  | [x] => default "" x
  | x :: rest => default "" x ++ separator ++ join separator rest
  end.

(** A truthy [pkgId] is the idempotency key of a purchase request; an absent,
    [null] or empty one is none. *)
Definition idempotency_key (pkgId : option string) : option string :=
  match pkgId with
  | Some (String c s) => Some (String c s)
  | Some EmptyString | None => None
  end.

(** [`${n}`] for an integer. *)
Definition integer_string (n : Z) : string :=
  match n with
  | Z0 => "0"
  | Zpos p => Number.decimal (Npos p)
  | Zneg p => "-" ++ Number.decimal (Npos p)
  end.

(** [`${selectedRate.estimated_days || 'N/A'}`]: [null] and 0 are falsy. *)
Definition days_string (estimated_days : option Z) : string :=
  match estimated_days with
  | Some Z0 | None => "N/A"
  | Some n => integer_string n
  end.

(** The record stored for a completed order. *)
Definition orderData (selectedRate : option Quote.t)
    (labelResults : list LabelResult.t) (now : string) : OrderData.t := {|
  OrderData.method :=
    match selectedRate with
    | Some r =>
        Quote.provider r ++ " - " ++ ServiceLevel.name (Quote.servicelevel r)
    | None => "N/A"
    end;
  OrderData.delivery :=
    match selectedRate with
    | Some r => days_string (Quote.estimated_days r) ++ " business days"
    | None => "N/A"
    end;
  OrderData.total :=
    match selectedRate with
    | Some r => "$" ++ Number.toFixed (Number.parseFloat (Quote.amount r)) 2
    | None => "N/A"
    end;
  OrderData.labels := labelResults;
  OrderData.completed_at := now
|}.

Definition respond (statusCode : Z) (payload : Payload) : HttpResponse :=
  {| statusCode := statusCode; payload := payload |}.

(** [packages] of a body when it is a list of packages. *)
Fixpoint listed (entries : list (option Package.t))
  : option (list Package.t) :=
  match entries with
  | [] => Some []
  | None :: _ => None
  | Some pkg :: rest =>
      match listed rest with
      | Some packages => Some (pkg :: packages)
      | None => None
      end
  end.

Definition packages_listed (packages : option (list (option Package.t)))
  : option (list Package.t) :=
  match packages with
  | Some entries => listed entries
  | None => None
  end.

(** [logOrderDetails]: it writes to the console, which is no part of the
    state. It reads [packages.length] and, in [packages.forEach], the
    [length] of every entry: where [packages] is absent or an entry is
    [null] it throws the [TypeError] of the runtime, worded as V8 does. *)
Definition logOrderDetails (destination : Destination.t)
    (labelResults : list LabelResult.t)
    (packages : option (list (option Package.t))) : Outcome unit :=
  match packages with
  | None => Throw "Cannot read properties of undefined (reading 'length')"
  | Some entries =>
      match listed entries with
      | Some _ => Return tt
      | None => Throw "Cannot read properties of null (reading 'length')"
      end
  end.

(** ** The server over its remote services *)

(** What the server runs against: the remote services, the built-in
    functions that are not modelled, and the configuration. *)
Module Env.
Record t : Type := {
  (** The carrier's rate service, as in [getRatesForPackages]. *)
  post_shipments : nat -> ShipmentRequest.t -> nat * Reply ShipmentData.t;
  (** The carrier's label service: its reply to a [POST /transactions],
      given the rate ids posted before. *)
  post_transactions :
    list string -> TransactionRequest.t -> Reply TransactionData.t;
  (** The printer service: its reply to a [POST /printjobs], given the jobs
      posted before. *)
  post_printjobs : list PrintJob.t -> PrintJob.t -> Reply Z;
  (** [JSON.stringify(result.data)]. *)
  JSON_stringify : Body TransactionData.t -> string;
  (** [Buffer.from(generatePackingSlipHTML(...)).toString('base64')]: the
      rendering of the packing slip, or what it throws. *)
  packing_slip_base64 :
    Destination.t -> list Package.t -> list LabelResult.t -> option Quote.t ->
    Outcome string;
  (** [decodeURIComponent], which throws a [URIError] on a malformed escape
      sequence. *)
  decodeURIComponent : string -> Outcome string;
  (** The configuration read from the environment variables. *)
  PRINTNODE_API_KEY : string;
  PRINTNODE_PRINTER_ID : Z
}.
End Env.

Section Server.
Variable env : Env.t.

Local Abbreviation post_shipments := (Env.post_shipments env).
Local Abbreviation post_transactions := (Env.post_transactions env).
Local Abbreviation post_printjobs := (Env.post_printjobs env).
Local Abbreviation JSON_stringify := (Env.JSON_stringify env).
Local Abbreviation packing_slip_base64 := (Env.packing_slip_base64 env).
Local Abbreviation decodeURIComponent := (Env.decodeURIComponent env).
Local Abbreviation PRINTNODE_API_KEY := (Env.PRINTNODE_API_KEY env).
Local Abbreviation PRINTNODE_PRINTER_ID := (Env.PRINTNODE_PRINTER_ID env).

Definition record_transaction (rateId : string) (w : World) : World :=
  {| completedOrders := completedOrders w;
     transactions := (transactions w ++ [rateId])%list;
     printjobs := printjobs w |}.

Definition record_printjob (job : PrintJob.t) (w : World) : World :=
  {| completedOrders := completedOrders w;
     transactions := transactions w;
     printjobs := (printjobs w ++ [job])%list |}.

Definition store_order (pkgId : string) (order : OrderData.t) (w : World)
  : World :=
  {| completedOrders := <[pkgId := order]> (completedOrders w);
     transactions := transactions w;
     printjobs := printjobs w |}.

Definition purchaseLabel (rateId : string) (w : World)
  : Outcome LabelInfo.t * World :=
  let transactionData :=
    {| TransactionRequest.rate := rateId;
       TransactionRequest.label_file_type := "PDF";
       TransactionRequest.async := false |} in
  let result := post_transactions (transactions w) transactionData in
  (match result with
   | NetworkError message => Throw message
   | Response status data =>
       if not_success status then
         Throw (or_else (field TransactionData.detail data)
                  (or_else (Some (JSON_stringify data))
                           "Failed to purchase label"))
       else
         match field TransactionData.status data with
         | Some "ERROR" =>
             let messages :=
               default [] (field TransactionData.messages data) in
             Throw (or_else (Some (join ", " messages))
                            "Label purchase failed")
         | _ =>
             Return
               {| LabelInfo.tracking_number :=
                    field TransactionData.tracking_number data;
                  LabelInfo.label_url := field TransactionData.label_url data;
                  LabelInfo.tracking_url :=
                    field TransactionData.tracking_url_provider data;
                  LabelInfo.transaction_id :=
                    field TransactionData.object_id data |}
         end
   end,
   record_transaction rateId w).

Definition label_result (rate : PackageRate.t) (labelInfo : LabelInfo.t)
  : LabelResult.t :=
  {| LabelResult.packageIndex := PackageRate.packageIndex rate;
     LabelResult.tracking_number := LabelInfo.tracking_number labelInfo;
     LabelResult.label_url := LabelInfo.label_url labelInfo;
     LabelResult.tracking_url := LabelInfo.tracking_url labelInfo |}.

(** The [for] loop of [purchaseAllLabels] from index [i] on, [packageRates]
    being the elements from there and [results] the array so far. A throw
    of [purchaseLabel] leaves the loop and the function. *)
Fixpoint purchase_loop (packageRates : list PackageRate.t)
    (results : list LabelResult.t) (w : World)
  : Outcome (list LabelResult.t) * World :=
  match packageRates with
  | [] => (Return results, w)
  | rate :: rest =>
      match purchaseLabel (PackageRate.rate_id rate) w with
      | (Throw message, w') => (Throw message, w')
      | (Return labelInfo, w') =>
          purchase_loop rest (results ++ [label_result rate labelInfo])%list w'
      end
  end.

Definition purchaseAllLabels (packageRates : list PackageRate.t) (w : World)
  : Outcome (list LabelResult.t) * World :=
  purchase_loop packageRates [] w.

(** [PRINTNODE_API_KEY === 'YOUR_PRINTNODE_API_KEY' ||
     PRINTNODE_PRINTER_ID === 0] *)
Definition printer_not_configured : bool :=
  String.eqb PRINTNODE_API_KEY "YOUR_PRINTNODE_API_KEY"
  || (PRINTNODE_PRINTER_ID =? 0)%Z.

(** The loop of [printLabels] from index [i] on: a reply of any status
    goes on to the next label, a failed connection is caught and ends the
    loop. *)
Fixpoint print_loop (customerName : string) (i : nat)
    (labelUrls : list (option string)) (w : World) : bool * World :=
  match labelUrls with
  | [] => (true, w)
  | url :: rest =>
      let printJob :=
        {| PrintJob.printerId := PRINTNODE_PRINTER_ID;
           PrintJob.title :=
             "Shipping Label " ++ Number.decimal (N.of_nat (i + 1))
             ++ " - " ++ customerName;
           PrintJob.contentType := "pdf_uri";
           PrintJob.content := url;
           PrintJob.source := "El Wafaa Shipping" |} in
      match post_printjobs (printjobs w) printJob with
      | NetworkError _ => (false, record_printjob printJob w)
      | Response _ _ =>
          print_loop customerName (S i) rest (record_printjob printJob w)
      end
  end.

Definition printLabels (labelUrls : list (option string))
    (customerName : string) (w : World) : bool * World :=
  if printer_not_configured then (false, w)
  else print_loop customerName 0 labelUrls w.

Definition printPackingSlip (destination : Destination.t)
    (packages : list Package.t) (labelResults : list LabelResult.t)
    (selectedRate : option Quote.t) (w : World) : bool * World :=
  if printer_not_configured then (false, w)
  else
    match packing_slip_base64 destination packages labelResults selectedRate with
    | Throw _ => (false, w)
    | Return base64Html =>
        let printJob :=
          {| PrintJob.printerId := PRINTNODE_PRINTER_ID;
             PrintJob.title :=
               "Packing Slip - " ++ Destination.name destination;
             PrintJob.contentType := "raw_base64";
             PrintJob.content := Some base64Html;
             PrintJob.source := "El Wafaa Shipping" |} in
        match post_printjobs (printjobs w) printJob with
        | NetworkError _ => (false, record_printjob printJob w)
        | Response status _ => ((status =? 201)%Z, record_printjob printJob w)
        end
    end.

(** *** The routes *)

(** [completedOrders.has(pkgId)] *)
Definition has_order (pkgId : string) (w : World) : bool :=
  match completedOrders w !! pkgId with
  | Some _ => true
  | None => false
  end.

(** [pkgId && completedOrders.has(pkgId)] *)
Definition already_completed (pkgId : option string) (w : World) : bool :=
  match idempotency_key pkgId with
  | Some key => has_order key w
  | None => false
  end.

(** The handler of [POST /api/purchase] after a successful
    [purchaseAllLabels]. The two print calls are started and not awaited:
    [printLabels] runs to its first [await], where the job of the first
    label is posted; [printPackingSlip] runs to its own, where the slip is
    posted (the rendering throws, within the [try] of [printPackingSlip],
    where [packages] is no list of packages); the rest of the loop of
    [printLabels] runs once the reply to its first job is there.
    [logOrderDetails] is called within the [try] of the handler: when it
    throws, the request is answered 400 with the message and no order is
    stored. Otherwise the order is stored under a truthy [pkgId] and the
    labels are sent. *)
Definition complete_purchase_body (body : PurchaseBody.t)
    (labelResults : list LabelResult.t) (now : string) (w : World)
  : HttpResponse * World :=
  let labelUrls := map LabelResult.label_url labelResults in
  let customerName := Destination.name (PurchaseBody.destination body) in
  let '(reached, w) :=
    if printer_not_configured then (false, w)
    else print_loop customerName 0 (take 1 labelUrls) w in
  let '(_, w) :=
    match packages_listed (PurchaseBody.packages body) with
    | Some packages =>
        printPackingSlip (PurchaseBody.destination body) packages
                         labelResults (PurchaseBody.selectedRate body) w
    | None => (false, w)
    end in
  let w :=
    if reached then snd (print_loop customerName 1 (drop 1 labelUrls) w)
    else w in
  match logOrderDetails (PurchaseBody.destination body) labelResults
                        (PurchaseBody.packages body) with
  | Throw message => (respond 400 (ErrorBody message), w)
  | Return _ =>
      let w :=
        match idempotency_key (PurchaseBody.pkgId body) with
        | Some pkgId =>
            store_order pkgId
              (orderData (PurchaseBody.selectedRate body) labelResults now) w
        | None => w
        end in
      (respond 200 (LabelsBody true labelResults), w)
  end.

(** The same for a request of the shape of [PurchaseRequest.t]. *)
Definition complete_purchase (req : PurchaseRequest.t)
    (labelResults : list LabelResult.t) (now : string) (w : World)
  : HttpResponse * World :=
  complete_purchase_body (PurchaseBody.of_request req) labelResults now w.

(** [POST /api/purchase], handled with no other request in between; [now]
    is what [new Date().toISOString()] gives. *)
Definition purchase (req : PurchaseRequest.t) (now : string) (w : World)
  : HttpResponse * World :=
  if already_completed (PurchaseRequest.pkgId req) w then
    (respond 400 (ErrorBody "This order has already been completed"), w)
  else
    match purchaseAllLabels (PurchaseRequest.package_rates req) w with
    | (Throw message, w) => (respond 400 (ErrorBody message), w)
    | (Return labelResults, w) => complete_purchase req labelResults now w
    end.


(** [POST /api/rates] *)
Definition rates (packages : list Package.t) (destination : Destination.t)
  : HttpResponse :=
  match getRatesForPackages post_shipments packages destination with
  | Return rates => respond 200 (RatesBody rates)
  | Throw message => respond 400 (ErrorBody message)
  end.

(** [GET /api/order/...]: [url] starts with ["/api/order/"], so that
    [url.replace('/api/order/', '')] is [url] without these 11 characters.
    A throw of [decodeURIComponent] is caught nowhere: no response is
    written. *)
Definition lookup_order (pkgId : string) (w : World) : HttpResponse :=
  match completedOrders w !! pkgId with
  | Some existingOrder => respond 200 (OrderBody true (Some existingOrder))
  | None => respond 200 (OrderBody false None)
  end.

Definition order (url : string) (w : World) : Outcome HttpResponse :=
  match decodeURIComponent
          (substring 11 (String.length url - 11) url) with
  | Throw message => Throw message
  | Return pkgId => Return (lookup_order pkgId w)
  end.

(** *** Requests handled one after another *)

Inductive Request : Type :=
  | GetOrder (url : string)
  | PostRates (packages : list Package.t) (destination : Destination.t)
  | PostPurchase (req : PurchaseRequest.t) (now : string).

Definition serve (r : Request) (w : World) : Outcome HttpResponse * World :=
  match r with
  | GetOrder url => (order url w, w)
  | PostRates packages destination => (Return (rates packages destination), w)
  | PostPurchase req now =>
      let '(response, w) := purchase req now w in (Return response, w)
  end.

Definition serve_all (requests : list Request) (w : World) : World :=
  fold_left (fun w r => snd (serve r w)) requests w.

(** *** Purchase requests in flight together

    The handler of [POST /api/purchase] gives way to other requests where
    it awaits the reply to a [POST /transactions]. [Pending] is a handler
    waiting there: the call for [rate] is issued and will settle to
    [settling]. *)
Record Pending : Type := {
  request : PurchaseRequest.t;
  rate : PackageRate.t;
  settling : Outcome LabelInfo.t;
  rest : list PackageRate.t;
  results : list LabelResult.t
}.

(** The handler runs from the head of the loop to its next [await], or to
    its end. *)
Definition advance (req : PurchaseRequest.t)
    (packageRates : list PackageRate.t) (results : list LabelResult.t)
    (now : string) (w : World) : (HttpResponse + Pending) * World :=
  match packageRates with
  | [] =>
      let '(response, w) := complete_purchase req results now w in
      (inl response, w)
  | rate :: rest =>
      let '(settling, w) := purchaseLabel (PackageRate.rate_id rate) w in
      (inr {| request := req; rate := rate; settling := settling;
              rest := rest; results := results |}, w)
  end.

Definition arrive (req : PurchaseRequest.t) (now : string) (w : World)
  : (HttpResponse + Pending) * World :=
  if already_completed (PurchaseRequest.pkgId req) w then
    (inl (respond 400 (ErrorBody "This order has already been completed")), w)
  else advance req (PurchaseRequest.package_rates req) [] now w.

Definition resume (p : Pending) (now : string) (w : World)
  : (HttpResponse + Pending) * World :=
  match settling p with
  | Throw message => (inl (respond 400 (ErrorBody message)), w)
  | Return labelInfo =>
      advance (request p) (rest p)
              (results p ++ [label_result (rate p) labelInfo])%list now w
  end.

(** A handler run to its response with nothing in between: at most [n]
    replies are waited for. *)
Fixpoint settle (n : nat) (now : string)
    (s : (HttpResponse + Pending) * World) : (HttpResponse + Pending) * World :=
  match n, s with
  | S n', (inr p, w) => settle n' now (resume p now w)
  | _, _ => s
  end.

(** The events of the server under purchase requests: a request arrives,
    or the reply awaited by the [i]-th waiting handler does. *)
Inductive Event : Type :=
  | Arrival (req : PurchaseRequest.t) (now : string)
  | Settled (i : nat) (now : string).

Definition step (s : list Pending * World) (e : Event)
  : list Pending * World :=
  let '(pool, w) := s in
  match e with
  | Arrival req now =>
      match arrive req now w with
      | (inl _, w') => (pool, w')
      | (inr p, w') => ((pool ++ [p])%list, w')
      end
  | Settled i now =>
      match pool !! i with
      | None => s
      | Some p =>
          match resume p now w with
          | (inl _, w') => (delete i pool, w')
          | (inr p', w') => (<[i := p']> pool, w')
          end
      end
  end.

Definition run (events : list Event) (s : list Pending * World)
  : list Pending * World :=
  fold_left step events s.
End Server.

(** The offers of the shipments in the order in which the two loops meet
    them, each with the index of its package; those that go under a key;
    the reference pushed for an offer; the group that offers under one key
    make, met in the order [first :: rest]. *)
Definition all_offers (shipments : list Shipment.t) : list (nat * Rate.t) :=
  flat_map (fun s => map (pair (Shipment.packageIndex s)) (Shipment.rates s))
           shipments.

Definition offers_under (key : string) (l : list (nat * Rate.t))
  : list (nat * Rate.t) :=
  filter (fun o => rate_key (snd o) = key) l.

Definition reference (o : nat * Rate.t) : PackageRate.t := {|
  PackageRate.packageIndex := fst o;
  PackageRate.rate_id := Rate.object_id (snd o);
  PackageRate.amount := Rate.amount (snd o)
|}.

Definition group_of (first : nat * Rate.t) (rest : list (nat * Rate.t))
  : Group.t := {|
  Group.provider := Rate.provider (snd first);
  Group.servicelevel := Rate.servicelevel (snd first);
  Group.estimated_days := Rate.estimated_days (snd first);
  Group.total_amount :=
    float_sum (map (fun o => Rate.amount (snd o)) (first :: rest));
  Group.currency := Rate.currency (snd first);
  Group.package_rates := map reference (first :: rest)
|}.

(** The map is the grouping by key string of the offers met so far. *)
Definition grouped_as (met : list (nat * Rate.t))
    (rateMap : list (string * Group.t)) : Prop :=
  forall key,
    Map_get key rateMap
    = match offers_under key met with
      | [] => None
      | first :: rest => Some (group_of first rest)
      end.

(** The invariant of [rateMap] along the two loops: the keys are distinct,
    every group holds a reference, and its total is the sum of its
    references. *)
Record well_grouped (rateMap : list (string * Group.t)) : Prop := {
  keys_distinct : NoDup rateMap.*1;
  groups_populated :
    forall key grouped, Map_get key rateMap = Some grouped ->
      Group.package_rates grouped <> [];
  groups_summed :
    forall key grouped, Map_get key rateMap = Some grouped ->
      Group.total_amount grouped =
      float_sum (map PackageRate.amount (Group.package_rates grouped))
}.

(** ** The properties as the specification words them

    These follow the specification's sentences, not the code, and are
    compared with the code in the second part. *)

(** "An AggregatedQuote appears in the result iff every package produced an
    offer under that quote's (provider, service-level) key; no quote's
    constituent-reference count ever differs from the package count." *)
Definition quoted_iff_pair_offered
    (post_shipments : nat -> ShipmentRequest.t -> nat * Reply ShipmentData.t)
    (packages : list Package.t) (destination : Destination.t)
    (quotes : list Quote.t) : Prop :=
  (forall provider token,
     (exists q, q ∈ quotes
        /\ Quote.provider q = provider
        /\ ServiceLevel.token (Quote.servicelevel q) = token) <->
     (forall index pkg, packages !! index = Some pkg ->
        exists rate,
          rate ∈ offers (reply_to post_shipments destination index pkg)
          /\ Rate.provider rate = provider
          /\ ServiceLevel.token (Rate.servicelevel rate) = token))
  /\ (forall q, q ∈ quotes ->
        List.length (Quote.package_rates q) = List.length packages).

(** "Aggregated amount equals the exact decimal sum of the constituent
    per-package amounts, rounded to two decimal places": an amount is read
    as the decimal [m * 10 ^ e] it writes, the sum is taken over the
    integers, halves round up. *)
Definition decimal_value (amount : string) : option (Z * Z) :=
  let l := Number.trim_start (list_ascii_of_string amount) in
  let '(neg, u) :=
    match l with
    | c :: t =>
        if Ascii.eqb c "+" then (false, t)
        else if Ascii.eqb c "-" then (true, t)
        else (false, l)
    | [] => (false, l)
    end in
  match Number.unsigned_literal u with
  | Number.LitDecimal m e => Some (if neg then (- Z.of_N m)%Z else Z.of_N m, e)
  | _ => None
  end.

Definition decimal_add (x y : Z * Z) : Z * Z :=
  let e := Z.min (snd x) (snd y) in
  ((fst x * 10 ^ (snd x - e) + fst y * 10 ^ (snd y - e))%Z, e).

Fixpoint decimal_sum (amounts : list string) : option (Z * Z) :=
  match amounts with
  | [] => Some (0, 0)%Z
  | a :: rest =>
      match decimal_value a, decimal_sum rest with
      | Some x, Some y => Some (decimal_add x y)
      | _, _ => None
      end
  end.

(** The hundredths of [m * 10 ^ e], to the nearest. *)
Definition hundredths (x : Z * Z) : Z :=
  let '(m, e) := x in
  if (0 <=? e + 2)%Z then (m * 10 ^ (e + 2))%Z
  else ((2 * m + 10 ^ (- (e + 2))) / (2 * 10 ^ (- (e + 2))))%Z.

Definition two_places (cents : Z) : string :=
  (if (cents <? 0)%Z then "-" else "") ++ Number.fixed_digits (Z.abs cents) 2.

Definition exact_sum_two_places (amounts : list string) : option string :=
  match decimal_sum amounts with
  | Some total => Some (two_places (hundredths total))
  | None => None
  end.

Definition amount_is_exact_sum (q : Quote.t) : Prop :=
  exact_sum_two_places (map PackageRate.amount (Quote.package_rates q))
  = Some (Quote.amount q).

(** "A purchase sequence that fails on package k returns (or retains,
    inspectable) exactly k-1 completed LabelResults": the labels that the
    outcome of [purchaseAllLabels] carries, those of the response, those the
    ledger holds. *)
Definition labels_of_outcome (outcome : Outcome (list LabelResult.t))
  : list LabelResult.t :=
  match outcome with
  | Return labels => labels
  | Throw _ => []
  end.

Definition labels_returned (response : HttpResponse) : list LabelResult.t :=
  match payload response with
  | LabelsBody _ labels => labels
  | _ => []
  end.

Definition labels_retained (w : World) : list LabelResult.t :=
  flat_map (fun entry => OrderData.labels (snd entry))
           (map_to_list (completedOrders w)).

Definition partial_results_kept (k : nat)
    (outcome : Outcome (list LabelResult.t)) (response : HttpResponse)
    (w : World) : Prop :=
  List.length (labels_of_outcome outcome) = (k - 1)%nat
  \/ List.length (labels_returned response) = (k - 1)%nat
  \/ List.length (labels_retained w) = (k - 1)%nat.




(** ** Concrete requests and remote services *)

Module Examples.

Definition rate (provider token amount object_id : string) : Rate.t := {|
  Rate.provider := provider;
  Rate.servicelevel := {| ServiceLevel.token := token; ServiceLevel.name := token |};
  Rate.estimated_days := Some 3%Z;
  Rate.amount := amount;
  Rate.currency := "USD";
  Rate.object_id := object_id
|}.

Definition created (rates : list Rate.t) : nat * Reply ShipmentData.t :=
  (0%nat,
   Response 201
     (Json {| ShipmentData.detail := None;
              ShipmentData.object_id := Some "shp_1";
              ShipmentData.rates := Some rates |})).

Definition parcel : Package.t := {|
  Package.length := Number.of_Z 10;
  Package.width := Number.of_Z 8;
  Package.height := Number.of_Z 4;
  Package.weight := Number.of_Z 2;
  Package.description := None
|}.

Definition home : Destination.t := {|
  Destination.name := "Mona";
  Destination.street := "1 Main St";
  Destination.street2 := None;
  Destination.city := "Newark";
  Destination.state := "NJ";
  Destination.zip := "07102";
  Destination.phone := None;
  Destination.email := None
|}.

(** The scenario of the specification: both packages quoted by CarrierX
    ground at 5.00 and 7.50, the first one also by CarrierY express. *)
Definition carriers (index : nat) (_ : ShipmentRequest.t)
  : nat * Reply ShipmentData.t :=
  match index with
  | O => created [rate "CarrierX" "ground" "5.00" "rate_a";
                  rate "CarrierY" "express" "9.99" "rate_b"]
  | _ => created [rate "CarrierX" "ground" "7.50" "rate_c"]
  end.

(** Two pairs, (A-B, C) and (A, B-C), with one key string. *)
Definition hyphenated (index : nat) (_ : ShipmentRequest.t)
  : nat * Reply ShipmentData.t :=
  match index with
  | O => created [rate "A-B" "C" "5.00" "rate_a"]
  | _ => created [rate "A" "B-C" "7.50" "rate_b"]
  end.

(** Amounts whose sum is no binary64 number. *)
Definition large (index : nat) (_ : ShipmentRequest.t)
  : nat * Reply ShipmentData.t :=
  match index with
  | O => created [rate "CarrierX" "ground" "9007199254740992.00" "rate_a"]
  | _ => created [rate "CarrierX" "ground" "1.00" "rate_b"]
  end.

(** [decodeURIComponent] on strings held as UTF-8 bytes: an escape [%XY]
    stands for a byte; the bytes of a character of several bytes must all be
    escaped and form valid UTF-8. *)
Definition hex_val (c : ascii) : option N :=
  let n := N_of_ascii c in
  if ((48 <=? n) && (n <=? 57))%N then Some (n - 48)%N
  else if ((65 <=? n) && (n <=? 70))%N then Some (n - 55)%N
  else if ((97 <=? n) && (n <=? 102))%N then Some (n - 87)%N
  else None.

Definition escaped_byte (l : list ascii) : option (N * list ascii) :=
  match l with
  | p :: a :: b :: rest =>
      if Ascii.eqb p "%" then
        match hex_val a, hex_val b with
        | Some x, Some y => Some ((16 * x + y)%N, rest)
        | _, _ => None
        end
      else None
  | _ => None
  end.

Fixpoint escaped_bytes (n : nat) (l : list ascii)
  : option (list N * list ascii) :=
  match n with
  | O => Some ([], l)
  | S n' =>
      match escaped_byte l with
      | Some (b, rest) =>
          match escaped_bytes n' rest with
          | Some (bs, r) => Some (b :: bs, r)
          | None => None
          end
      | None => None
      end
  end.

Definition between (lo hi b : N) : bool := ((lo <=? b) && (b <=? hi))%N.

Definition valid_utf8 (octets : list N) : bool :=
  match octets with
  | [a; b] => between 194 223 a && between 128 191 b
  | [a; b; c] =>
      ((a =? 224)%N && between 160 191 b
       || (between 225 236 a || between 238 239 a) && between 128 191 b
       || (a =? 237)%N && between 128 159 b)
      && between 128 191 c
  | [a; b; c; d] =>
      ((a =? 240)%N && between 144 191 b
       || between 241 243 a && between 128 191 b
       || (a =? 244)%N && between 128 143 b)
      && between 128 191 c && between 128 191 d
  | _ => false
  end.

Fixpoint decode (fuel : nat) (l : list ascii) : option (list ascii) :=
  match fuel, l with
  | _, [] => Some []
  | O, _ :: _ => None
  | S fuel', c :: rest =>
      if Ascii.eqb c "%" then
        match escaped_byte l with
        | None => None
        | Some (b, r1) =>
            if (b <? 128)%N then cons (ascii_of_N b) <$> decode fuel' r1
            else
              let n := if between 192 223 b then 2%nat
                       else if between 224 239 b then 3%nat
                       else if between 240 247 b then 4%nat
                       else 0%nat in
              match n with
              | O => None
              | S n' =>
                  match escaped_bytes n' r1 with
                  | None => None
                  | Some (bs, r2) =>
                      if valid_utf8 (b :: bs)
                      then app (map ascii_of_N (b :: bs)) <$> decode fuel' r2
                      else None
                  end
              end
        end
      else cons c <$> decode fuel' rest
  end.

Definition decodeURIComponent (s : string) : Outcome string :=
  match decode (String.length s) (list_ascii_of_string s) with
  | Some l => Return (string_of_list_ascii l)
  | None => Throw "URI malformed"
  end.

(** A label service that issues a label for every rate but [rate_bad], which
    it refuses with the message "Invalid rate"; a label is numbered by the
    calls made before. *)
Definition issued (n : nat) : Reply TransactionData.t :=
  Response 201
    (Json {| TransactionData.detail := None;
             TransactionData.status := Some "SUCCESS";
             TransactionData.messages := None;
             TransactionData.tracking_number :=
               Some ("TRACK" ++ Number.decimal (N.of_nat n));
             TransactionData.label_url :=
               Some ("https://labels.example/" ++ Number.decimal (N.of_nat n));
             TransactionData.tracking_url_provider :=
               Some ("https://track.example/" ++ Number.decimal (N.of_nat n));
             TransactionData.object_id := Some "txn" |}).

Definition refused (text : string) : Reply TransactionData.t :=
  Response 201
    (Json {| TransactionData.detail := None;
             TransactionData.status := Some "ERROR";
             TransactionData.messages := Some [Some text];
             TransactionData.tracking_number := None;
             TransactionData.label_url := None;
             TransactionData.tracking_url_provider := None;
             TransactionData.object_id := None |}).

Definition labels (history : list string) (t : TransactionRequest.t)
  : Reply TransactionData.t :=
  if String.eqb (TransactionRequest.rate t) "rate_bad"
  then refused "Invalid rate"
  else issued (List.length history).

Definition shop : Env.t := {|
  Env.post_shipments := carriers;
  Env.post_transactions := labels;
  Env.post_printjobs := fun _ _ => Response 201 (Json 1%Z);
  Env.JSON_stringify := fun _ => "{}";
  Env.packing_slip_base64 := fun _ _ _ _ => Return "PGh0bWw+";
  Env.decodeURIComponent := decodeURIComponent;
  Env.PRINTNODE_API_KEY := "pn_key";
  Env.PRINTNODE_PRINTER_ID := 7
|}.


Definition pair (index : nat) (rate_id : string) : PackageRate.t := {|
  PackageRate.packageIndex := index;
  PackageRate.rate_id := rate_id;
  PackageRate.amount := "5.00"
|}.

Definition order_of (pkgId : option string) (package_rates : list PackageRate.t)
  : PurchaseRequest.t := {|
  PurchaseRequest.package_rates := package_rates;
  PurchaseRequest.packages := map (fun _ => parcel) package_rates;
  PurchaseRequest.destination := home;
  PurchaseRequest.pkgId := pkgId;
  PurchaseRequest.selectedRate := None
|}.

(** A rate service that fails for the second package with a gateway error
    page. *)
Definition carriers_down (index : nat) (_ : ShipmentRequest.t)
  : nat * Reply ShipmentData.t :=
  match index with
  | 1%nat => (0%nat, Response 502 (Text "<html>Bad Gateway</html>"))
  | _ => created [rate "CarrierX" "ground" "5.00" "rate_a"]
  end.

Definition shop_down : Env.t := {|
  Env.post_shipments := carriers_down;
  Env.post_transactions := labels;
  Env.post_printjobs := fun _ _ => Response 201 (Json 1%Z);
  Env.JSON_stringify := fun _ => "{}";
  Env.packing_slip_base64 := fun _ _ _ _ => Return "PGh0bWw+";
  Env.decodeURIComponent := decodeURIComponent;
  Env.PRINTNODE_API_KEY := "pn_key";
  Env.PRINTNODE_PRINTER_ID := 7
|}.

(** Two packages bought under the key [order-1]; the same with a rate that
    the carrier refuses for the second package; one package bought without
    a key. *)
Definition order_1 : PurchaseRequest.t :=
  order_of (Some "order-1") [pair 0 "rate_a"; pair 1 "rate_b"].

Definition order_refused : PurchaseRequest.t :=
  order_of (Some "order-1") [pair 0 "rate_a"; pair 1 "rate_bad"].

Definition order_unkeyed : PurchaseRequest.t :=
  order_of None [pair 0 "rate_a"].


(** One package offered twice under one key string, the other not at all. *)
Definition doubled (index : nat) (_ : ShipmentRequest.t)
  : nat * Reply ShipmentData.t :=
  match index with
  | O => created [rate "CarrierX" "ground" "5.00" "rate_a";
                  rate "CarrierX" "ground" "6.00" "rate_b"]
  | _ => created []
  end.

End Examples.

(** ** The request handler and the static files

    What the handler reads of the file system and of the [path] module:
    the directory of the server, [path.join] and [path.extname], and
    [fs.readFile], which gives the content of a file or fails. *)
Module Site.
Record t : Type := {
  dirname : string;
  path_join : string -> string -> string;
  path_extname : string -> string;
  readFile : string -> option string
}.
End Site.

Definition MIME_TYPES : list (string * string) :=
  [ (".html", "text/html");
    (".css", "text/css");
    (".js", "application/javascript");
    (".json", "application/json") ].

(** [s.split(sep)[0]]: [s] up to its first [sep]. *)
Fixpoint up_to (sep : ascii) (s : string) : string :=
  match s with
  | EmptyString => EmptyString
  | String c rest =>
      if Ascii.eqb c sep then EmptyString else String c (up_to sep rest)
  end.

(** What is written for a static file: the status, the [Content-Type]
    header if one is set, and the body. *)
Record FileResponse : Type := {
  status : Z;
  contentType : option string;
  content : string
}.

(** The last part of the handler. [path.extname] gives the empty string or
    a string that starts with a dot, so that [MIME_TYPES[ext]] reads an own
    property of [MIME_TYPES] or nothing. *)
Definition serve_static (site : Site.t) (url : string) : FileResponse :=
  let urlPath := up_to "?" url in
  let filePath := if String.eqb urlPath "/" then "/admin.html" else urlPath in
  let filePath := Site.path_join site (Site.dirname site) filePath in
  let ext := Site.path_extname site filePath in
  let contentType := or_else (Map_get ext MIME_TYPES) "text/plain" in
  match Site.readFile site filePath with
  | None => {| status := 404; contentType := None; content := "Not Found" |}
  | Some content =>
      {| status := 200; contentType := Some contentType; content := content |}
  end.

(** What the handler answers: the empty 200 of [OPTIONS], the answer of a
    route of the API (or its throw), or a static file. *)
Inductive Answer : Type :=
  | Preflight
  | Api (response : Outcome HttpResponse)
  | Static (response : FileResponse).

(** The callback of [http.createServer], for a request with method
    [method], URL [url] and a body that parses to [body], handled with no
    other request in between; the route of the rates reads [packages] and
    [destination] of it only. As in [serve], a throw of the order route
    leaves the state as it is. *)
Definition handler (site : Site.t) (env : Env.t) (method url : string)
    (body : PurchaseRequest.t) (now : string) (w : World) : Answer * World :=
  if String.eqb method "OPTIONS" then (Preflight, w)
  else if String.prefix "/api/order/" url && String.eqb method "GET" then
    (Api (order env url w), w)
  else if String.eqb url "/api/rates" && String.eqb method "POST" then
    (Api (Return (rates env (PurchaseRequest.packages body)
                    (PurchaseRequest.destination body))), w)
  else if String.eqb url "/api/purchase" && String.eqb method "POST" then
    let '(response, w) := purchase env body now w in
    (Api (Return response), w)
  else (Static (serve_static site url), w).

(** ** Notions of the further properties *)

(** The quote that a single offer of the package at [index] makes. *)
Definition offer_quote (index : nat) (rate : Rate.t) : Quote.t := {|
  Quote.key := rate_key rate;
  Quote.provider := Rate.provider rate;
  Quote.servicelevel := Rate.servicelevel rate;
  Quote.estimated_days := Rate.estimated_days rate;
  Quote.amount :=
    Number.toFixed
      (Number.add Number.zero (Number.parseFloat (Rate.amount rate))) 2;
  Quote.currency := Rate.currency rate;
  Quote.package_rates :=
    [ {| PackageRate.packageIndex := index;
         PackageRate.rate_id := Rate.object_id rate;
         PackageRate.amount := Rate.amount rate |} ]
|}.

(** The state after calls to the carrier's label service for the rate ids
    of a list, in their order. *)
Definition after_calls (rateIds : list string) (w : World) : World :=
  fold_left (fun w rateId => record_transaction rateId w) rateIds w.

(** The calls for the pairs of a list, made in their order from the state
    [w], are answered with the labels [labelInfos]: the call for the pair
    at [i] is made after those for the pairs before it. *)
Definition labels_issued (env : Env.t) (packageRates : list PackageRate.t)
    (w : World) (labelInfos : list LabelInfo.t) : Prop :=
  List.length labelInfos = List.length packageRates
  /\ forall i rate labelInfo,
       packageRates !! i = Some rate ->
       labelInfos !! i = Some labelInfo ->
       fst (purchaseLabel env (PackageRate.rate_id rate)
              (after_calls (map PackageRate.rate_id (take i packageRates)) w))
       = Return labelInfo.

(** The label that [purchaseAllLabels] makes of a reply without any of the
    fields it reads. *)
Definition blank_label (rate : PackageRate.t) : LabelResult.t := {|
  LabelResult.packageIndex := PackageRate.packageIndex rate;
  LabelResult.tracking_number := None;
  LabelResult.label_url := None;
  LabelResult.tracking_url := None
|}.

(** The print job of [printLabels] for the label at index [i], and that of
    [printPackingSlip]. *)
Definition label_job (env : Env.t) (customerName : string) (i : nat)
    (url : option string) : PrintJob.t := {|
  PrintJob.printerId := Env.PRINTNODE_PRINTER_ID env;
  PrintJob.title :=
    "Shipping Label " ++ Number.decimal (N.of_nat (i + 1))
    ++ " - " ++ customerName;
  PrintJob.contentType := "pdf_uri";
  PrintJob.content := url;
  PrintJob.source := "El Wafaa Shipping"
|}.

Definition slip_job (env : Env.t) (destination : Destination.t)
    (base64Html : string) : PrintJob.t := {|
  PrintJob.printerId := Env.PRINTNODE_PRINTER_ID env;
  PrintJob.title := "Packing Slip - " ++ Destination.name destination;
  PrintJob.contentType := "raw_base64";
  PrintJob.content := Some base64Html;
  PrintJob.source := "El Wafaa Shipping"
|}.

(** The state after print jobs posted in the order of a list. *)
Definition after_jobs (jobs : list PrintJob.t) (w : World) : World :=
  fold_left (fun w job => record_printjob job w) jobs w.

(** The connection to the printer service is made for a job posted after
    [history]: the service replies, with whatever status. *)
Definition reached (env : Env.t) (history : list PrintJob.t)
    (job : PrintJob.t) : bool :=
  match Env.post_printjobs env history job with
  | NetworkError _ => false
  | Response _ _ => true
  end.

(** From one state of the server to a later one, nothing is taken back:
    the calls and the print jobs made are still made, and a key that has
    an order still has one. *)
Definition grows (w w' : World) : Prop :=
  transactions w `prefix_of` transactions w'
  /\ printjobs w `prefix_of` printjobs w'
  /\ forall key, is_Some (completedOrders w !! key) ->
                 is_Some (completedOrders w' !! key).

(** ** One purchase request followed among others in flight *)








(** ** More concrete requests and services *)

Module Scenarios.

Definition priced (provider token amount currency object_id : string)
  : Rate.t := {|
  Rate.provider := provider;
  Rate.servicelevel :=
    {| ServiceLevel.token := token; ServiceLevel.name := token |};
  Rate.estimated_days := None;
  Rate.amount := amount;
  Rate.currency := currency;
  Rate.object_id := object_id
|}.

(** One service quoted in dollars for the first package and in euros for
    the second. *)
Definition two_currencies (index : nat) (_ : ShipmentRequest.t)
  : nat * Reply ShipmentData.t :=
  match index with
  | O => Examples.created [priced "CarrierX" "ground" "5.00" "USD" "rate_a"]
  | _ => Examples.created [priced "CarrierX" "ground" "7.50" "EUR" "rate_b"]
  end.

(** The second package gets a success reply without any rate. *)
Definition one_unserved (index : nat) (_ : ShipmentRequest.t)
  : nat * Reply ShipmentData.t :=
  match index with
  | O => Examples.created [Examples.rate "CarrierX" "ground" "5.00" "rate_a"]
  | _ => (0%nat, Response 200 (Text "OK"))
  end.

(** One package, offered a rate whose amount is written with its currency
    sign. *)
Definition with_currency_sign (index : nat) (_ : ShipmentRequest.t)
  : nat * Reply ShipmentData.t :=
  Examples.created [priced "CarrierX" "ground" "$5.00" "USD" "rate_a"].

(** The shop behind a gateway that answers every label purchase with a
    page that is no JSON, under a success status. *)
Definition shop_behind_gateway : Env.t := {|
  Env.post_shipments := Examples.carriers;
  Env.post_transactions := fun _ _ => Response 200 (Text "<html>OK</html>");
  Env.post_printjobs := fun _ _ => Response 201 (Json 1%Z);
  Env.JSON_stringify := fun _ => "{}";
  Env.packing_slip_base64 := fun _ _ _ _ => Return "PGh0bWw+";
  Env.decodeURIComponent := Examples.decodeURIComponent;
  Env.PRINTNODE_API_KEY := "pn_key";
  Env.PRINTNODE_PRINTER_ID := 7
|}.

(** The shop started without [PRINTNODE_API_KEY] in its environment. *)
Definition shop_without_key : Env.t := {|
  Env.post_shipments := Examples.carriers;
  Env.post_transactions := Examples.labels;
  Env.post_printjobs := fun _ _ => Response 401 (Text "Unauthorized");
  Env.JSON_stringify := fun _ => "{}";
  Env.packing_slip_base64 := fun _ _ _ _ => Return "PGh0bWw+";
  Env.decodeURIComponent := Examples.decodeURIComponent;
  Env.PRINTNODE_API_KEY := "";
  Env.PRINTNODE_PRINTER_ID := 7
|}.

(** A printer service that is reached for the first job only. *)
Definition shop_printer_drops : Env.t := {|
  Env.post_shipments := Examples.carriers;
  Env.post_transactions := Examples.labels;
  Env.post_printjobs := fun history _ =>
    match history with
    | [] => Response 201 (Json 1%Z)
    | _ => NetworkError "ECONNRESET"
    end;
  Env.JSON_stringify := fun _ => "{}";
  Env.packing_slip_base64 := fun _ _ _ _ => Return "PGh0bWw+";
  Env.decodeURIComponent := Examples.decodeURIComponent;
  Env.PRINTNODE_API_KEY := "pn_key";
  Env.PRINTNODE_PRINTER_ID := 7
|}.
(** A directory with the admin page and a style sheet; paths are joined as
    for a directory and a path that are normalized already. *)
Definition shop_files : Site.t := {|
  Site.dirname := "/srv/app";
  Site.path_join := fun directory file => directory ++ file;
  Site.path_extname := fun file =>
    if String.eqb file "/srv/app/admin.html" then ".html"
    else if String.eqb file "/srv/app/style.css" then ".css"
    else "";
  Site.readFile := fun file =>
    if String.eqb file "/srv/app/admin.html" then Some "<html></html>"
    else if String.eqb file "/srv/app/style.css" then Some "body {}"
    else None
|}.
(** Purchases without a key: two packages; three packages, the rate of
    the second refused. *)
Definition unkeyed_pair : PurchaseRequest.t :=
  Examples.order_of None [Examples.pair 0 "rate_a"; Examples.pair 1 "rate_b"].

Definition unkeyed_refused : PurchaseRequest.t :=
  Examples.order_of None
    [Examples.pair 0 "rate_a"; Examples.pair 1 "rate_bad";
     Examples.pair 2 "rate_c"].

End Scenarios.

(** ** Facts about the ordered map *)

Section OrderedMapFacts.
Context {V : Type}.
Implicit Types (m : list (string * V)) (key k : string) (v : V).

Lemma Map_get_app key m m' :
  Map_get key (m ++ m') =
  match Map_get key m with Some v => Some v | None => Map_get key m' end.
Proof.
  induction m as [|[k v] m IH]; simpl; [done|].
  destruct (String.eqb k key); done.
Qed.

Lemma Map_get_alter f k key m :
  Map_get key (Map_alter f k m) =
  if String.eqb k key then f <$> Map_get key m else Map_get key m.
Proof.
  induction m as [|[k' v] m IH]; simpl.
  - by destruct (String.eqb k key).
  - destruct (String.eqb k' k) eqn:E1; simpl.
    + apply String.eqb_eq in E1 as ->.
      destruct (String.eqb k key) eqn:E2; simpl; rewrite ?E2; done.
    + destruct (String.eqb k' key) eqn:E2; simpl; rewrite ?E2.
      * destruct (String.eqb k key) eqn:E3; [|done].
        apply String.eqb_eq in E2 as ->. apply String.eqb_eq in E3 as ->.
        by rewrite String.eqb_refl in E1.
      * apply IH.
Qed.

Lemma Map_alter_keys f k m : (Map_alter f k m).*1 = m.*1.
Proof.
  induction m as [|[k' v] m IH]; csimpl; [done|].
  destruct (String.eqb k' k); csimpl; [done | by rewrite IH].
Qed.

Lemma Map_get_None key m : Map_get key m = None <-> key ∉ m.*1.
Proof.
  induction m as [|[k v] m IH]; simpl.
  - split; [intros _; apply not_elem_of_nil | done].
  - rewrite not_elem_of_cons. destruct (String.eqb k key) eqn:E.
    + apply String.eqb_eq in E as ->. split; [done | by intros [? _]].
    + apply String.eqb_neq in E. rewrite IH.
      split; [intros ?; split; [congruence | done] | by intros [_ ?]].
Qed.

Lemma Map_get_elem_of key v m :
  NoDup m.*1 -> (key, v) ∈ m <-> Map_get key m = Some v.
Proof.
  induction m as [|[k v'] m IH]; simpl; intros Hnd.
  - split; [by intros ?%elem_of_nil | done].
  - apply NoDup_cons in Hnd as [Hk Hnd]. rewrite elem_of_cons, (IH Hnd).
    destruct (String.eqb k key) eqn:E.
    + apply String.eqb_eq in E as ->. split.
      * intros [[= ->]|Hget]; [done|].
        apply Map_get_None in Hk. congruence.
      * intros [= ->]. by left.
    + apply String.eqb_neq in E.
      split; [intros [[= ? ?]|?]; [congruence | done] | by right].
Qed.
End OrderedMapFacts.

(** ** Facts about the grouping of offers *)

Lemma add_rate_get key index rateMap rate :
  Map_get key (add_rate index rateMap rate) =
  if String.eqb (rate_key rate) key
  then Some (add_to_group index rate
               (default (new_group rate) (Map_get key rateMap)))
  else Map_get key rateMap.
Proof.
  unfold add_rate, Map_set, Map_has.
  destruct (Map_get (rate_key rate) rateMap) as [g|] eqn:Hget; simpl;
    rewrite Map_get_alter; destruct (String.eqb (rate_key rate) key) eqn:E.
  - apply String.eqb_eq in E as <-. by rewrite Hget.
  - done.
  - apply String.eqb_eq in E as <-.
    rewrite Map_get_app, Hget. simpl. by rewrite String.eqb_refl.
  - rewrite Map_get_app. destruct (Map_get key rateMap); [done|].
    simpl. by rewrite E.
Qed.

Lemma add_rate_keys index rateMap rate :
  NoDup rateMap.*1 -> NoDup (add_rate index rateMap rate).*1.
Proof.
  intros Hnd. unfold add_rate, Map_set, Map_has.
  destruct (Map_get (rate_key rate) rateMap) as [g|] eqn:Hget; simpl;
    rewrite Map_alter_keys; [done|].
  rewrite fmap_app. apply NoDup_app. split_and!; [done | | apply NoDup_singleton].
  intros k Hk ->%list_elem_of_singleton. by apply Map_get_None in Hget.
Qed.

Lemma float_sum_snoc amounts amount :
  float_sum (amounts ++ [amount]) =
  Number.add (float_sum amounts) (Number.parseFloat amount).
Proof. unfold float_sum. by rewrite fold_left_app. Qed.

Lemma well_grouped_nil : well_grouped [].
Proof. split; [apply NoDup_nil_2 | done | done]. Qed.

Lemma well_grouped_add_rate index rateMap rate :
  well_grouped rateMap -> well_grouped (add_rate index rateMap rate).
Proof.
  intros [Hnd Hpop Hsum]. split.
  - by apply add_rate_keys.
  - intros key grouped. rewrite add_rate_get.
    destruct (String.eqb (rate_key rate) key); [|by apply Hpop].
    intros [= <-]. simpl. by destruct (Group.package_rates _).
  - intros key grouped. rewrite add_rate_get.
    destruct (String.eqb (rate_key rate) key); [|by apply Hsum].
    intros [= <-]. cbn [Group.total_amount Group.package_rates add_to_group].
    rewrite map_app. cbn [map PackageRate.amount]. rewrite float_sum_snoc. f_equal.
    destruct (Map_get key rateMap) as [g|] eqn:Hget; simpl; [by eapply Hsum | done].
Qed.

Lemma well_grouped_add_shipment rateMap shipment :
  well_grouped rateMap -> well_grouped (add_shipment rateMap shipment).
Proof.
  unfold add_shipment. generalize (Shipment.rates shipment). intros rates.
  revert rateMap. induction rates as [|r rates IH]; simpl; intros m Hm; [done|].
  by apply IH, well_grouped_add_rate.
Qed.

Lemma well_grouped_group_rates shipments : well_grouped (group_rates shipments).
Proof.
  unfold group_rates. generalize well_grouped_nil.
  generalize (@nil (string * Group.t)). induction shipments as [|s ss IH];
    simpl; intros m Hm; [done|].
  by apply IH, well_grouped_add_shipment.
Qed.

(** ** What the grouping computes *)

Lemma add_to_group_new index rate :
  add_to_group index rate (new_group rate) = group_of (index, rate) [].
Proof. reflexivity. Qed.

Lemma add_to_group_of index rate first rest :
  add_to_group index rate (group_of first rest)
  = group_of first (rest ++ [(index, rate)])%list.
Proof.
  unfold add_to_group, group_of. cbn [Group.provider Group.servicelevel
    Group.estimated_days Group.total_amount Group.currency Group.package_rates].
  f_equal.
  - change (first :: (rest ++ [(index, rate)])%list)
      with ((first :: rest) ++ [(index, rate)])%list.
    rewrite map_app. symmetry. apply float_sum_snoc.
  - change (first :: (rest ++ [(index, rate)])%list)
      with ((first :: rest) ++ [(index, rate)])%list.
    by rewrite map_app.
Qed.

Lemma grouped_as_add_rate met rateMap index rate :
  grouped_as met rateMap ->
  grouped_as (met ++ [(index, rate)])%list (add_rate index rateMap rate).
Proof.
  intros Hmet key. rewrite add_rate_get, (Hmet key). unfold offers_under.
  rewrite filter_app, filter_cons. cbn [snd].
  destruct (String.eqb_spec (rate_key rate) key) as [Heq|Hne].
  - rewrite decide_True by done.
    destruct (filter _ met) as [|first rest]; simpl.
    + by rewrite add_to_group_new.
    + by rewrite add_to_group_of.
  - rewrite decide_False by done. simpl. by rewrite app_nil_r.
Qed.

Lemma grouped_as_add_shipment met rateMap shipment :
  grouped_as met rateMap ->
  grouped_as
    (met ++ map (pair (Shipment.packageIndex shipment))
                (Shipment.rates shipment))%list
    (add_shipment rateMap shipment).
Proof.
  unfold add_shipment. generalize (Shipment.rates shipment). intros rates.
  revert met rateMap. induction rates as [|r rates IH]; simpl; intros met m Hm.
  - by rewrite app_nil_r.
  - rewrite (cons_middle _ met), app_assoc.
    by apply IH, grouped_as_add_rate.
Qed.

Lemma group_rates_get shipments :
  grouped_as (all_offers shipments) (group_rates shipments).
Proof.
  unfold group_rates, all_offers.
  assert (forall met m, grouped_as met m ->
    grouped_as
      (met ++ flat_map
                (fun s => map (pair (Shipment.packageIndex s)) (Shipment.rates s))
                shipments)%list
      (fold_left add_shipment shipments m)) as H.
  { induction shipments as [|s ss IH]; simpl; intros met m Hm.
    - by rewrite app_nil_r.
    - rewrite app_assoc. by apply IH, grouped_as_add_shipment. }
  apply (H [] []). by intros key.
Qed.

(** ** One reference per package

    The references of a key count the offers under it. *)
Lemma references_add_rate key index rateMap rate :
  references key (add_rate index rateMap rate) =
  (references key rateMap + List.length (under key [rate]))%nat.
Proof.
  unfold references, under. rewrite add_rate_get, filter_cons.
  destruct (String.eqb_spec (rate_key rate) key) as [Heq|Hne].
  - rewrite decide_True by done. simpl. rewrite length_app. simpl.
    by destruct (Map_get key rateMap).
  - rewrite decide_False by done. simpl. lia.
Qed.

Lemma references_add_shipment key rateMap shipment :
  references key (add_shipment rateMap shipment) =
  (references key rateMap
   + List.length (under key (Shipment.rates shipment)))%nat.
Proof.
  unfold add_shipment. generalize (Shipment.rates shipment). intros rates.
  revert rateMap. induction rates as [|r rates IH]; simpl; intros m.
  - unfold under. simpl. lia.
  - rewrite IH, references_add_rate. unfold under.
    rewrite (filter_cons _ r rates), filter_cons.
    destruct (decide (rate_key r = key)); simpl; lia.
Qed.

Lemma references_group_rates key shipments :
  references key (group_rates shipments) =
  sum_list (map (fun s => List.length (under key (Shipment.rates s))) shipments).
Proof.
  unfold group_rates.
  assert (forall m,
    references key (fold_left add_shipment shipments m) =
    (references key m
     + sum_list (map (fun s => List.length (under key (Shipment.rates s)))
                     shipments))%nat) as H.
  { induction shipments as [|s ss IH]; simpl; intros m; [lia|].
    rewrite IH, references_add_shipment. lia. }
  rewrite H. done.
Qed.

Lemma complete_rates_elem_of n rateMap q :
  q ∈ complete_rates n rateMap <->
  exists key grouped,
    (key, grouped) ∈ rateMap
    /\ List.length (Group.package_rates grouped) = n
    /\ q = quote_of key grouped.
Proof.
  unfold complete_rates.
  assert (forall acc,
    q ∈ fold_left
          (fun completeRates entry =>
             if (List.length (Group.package_rates (snd entry)) =? n)%nat
             then (completeRates ++ [quote_of (fst entry) (snd entry)])%list
             else completeRates) rateMap acc <->
    q ∈ acc \/ exists key grouped,
      (key, grouped) ∈ rateMap
      /\ List.length (Group.package_rates grouped) = n
      /\ q = quote_of key grouped) as H.
  { induction rateMap as [|[k g] m IH]; intros acc; simpl.
    - split; [by left | intros [?|(? & ? & []%elem_of_nil & _)]; done].
    - rewrite IH. destruct (Nat.eqb_spec (List.length (Group.package_rates g)) n)
        as [Hlen|Hlen].
      + rewrite elem_of_app, list_elem_of_singleton. split.
        * intros [[?| ->]|(k' & g' & Hin & ? & ?)]; [by left | |].
          -- right. exists k, g. split_and!; [by left | done | done].
          -- right. exists k', g'. split_and!; [by right | done | done].
        * intros [?|(k' & g' & Hin & ? & ?)]; [by left; left|].
          apply elem_of_cons in Hin as [[= -> ->]|Hin]; [by left; right|].
          right. by exists k', g'.
      + split.
        * intros [?|(k' & g' & Hin & ? & ?)]; [by left|].
          right. exists k', g'. split_and!; [by right | done | done].
        * intros [?|(k' & g' & Hin & ? & ?)]; [by left|].
          apply elem_of_cons in Hin as [[= -> ->]|Hin]; [done|].
          right. by exists k', g'. }
  rewrite H. split; [intros [[]%elem_of_nil|?]; done | by right].
Qed.

(** A quote under a key is returned exactly when the key has one reference
    per package. *)
Lemma quoted_iff_references n rateMap key :
  well_grouped rateMap -> n <> 0%nat ->
  (exists q, q ∈ complete_rates n rateMap /\ Quote.key q = key) <->
  references key rateMap = n.
Proof.
  intros [Hnd Hpop _] Hn. unfold references. split.
  - intros (q & (k & g & Hin & Hlen & ->)%complete_rates_elem_of & <-). simpl.
    apply Map_get_elem_of in Hin; [|done]. by rewrite Hin.
  - destruct (Map_get key rateMap) as [g|] eqn:Hget; [|done].
    intros Hlen. exists (quote_of key g). split; [|done].
    apply complete_rates_elem_of. exists key, g.
    split_and!; [by apply Map_get_elem_of | done | done].
Qed.

Lemma under_elem_of key rates :
  (0 < List.length (under key rates))%nat <->
  exists rate, rate ∈ rates /\ rate_key rate = key.
Proof.
  unfold under. split.
  - destruct (filter _ rates) as [|r l] eqn:Hf; simpl; [lia|]. intros _.
    assert (r ∈ filter (fun rate => rate_key rate = key) rates) as Hr.
    { rewrite Hf. by left. }
    apply list_elem_of_filter in Hr as [? ?]. by exists r.
  - intros (r & Hr & Hkey).
    assert (r ∈ filter (fun rate => rate_key rate = key) rates) as Hin.
    { by apply list_elem_of_filter. }
    destruct (filter _ rates); [by apply elem_of_nil in Hin | simpl; lia].
Qed.

Lemma under_at_most_one key rates :
  NoDup (map rate_key rates) -> (List.length (under key rates) <= 1)%nat.
Proof.
  unfold under. induction rates as [|r rates IH]; simpl; intros Hnd; [lia|].
  apply NoDup_cons in Hnd as [Hr Hnd]. rewrite filter_cons.
  destruct (decide (rate_key r = key)) as [<-|]; [|by apply IH].
  simpl. destruct (filter _ rates) as [|r' l] eqn:Hf; simpl; [lia|].
  exfalso. apply Hr.
  assert (r' ∈ filter (fun rate => rate_key rate = rate_key r) rates) as Hr'.
  { rewrite Hf. by left. }
  apply list_elem_of_filter in Hr' as [<- Hin].
  apply list_elem_of_fmap. by exists r'.
Qed.

(** Counts that are at most one add up to the number of lists exactly when
    none is zero. *)
Lemma sum_of_flags (counts : list nat) :
  Forall (fun c => (c <= 1)%nat) counts ->
  sum_list counts = List.length counts <-> Forall (fun c => (0 < c)%nat) counts.
Proof.
  induction 1 as [|c counts Hc Hall IH]; simpl.
  - split; [constructor | done].
  - assert (sum_list counts <= List.length counts)%nat as Hle.
    { clear IH. induction Hall; simpl; lia. }
    rewrite Forall_cons. destruct IH as [IH1 IH2]. split.
    + intros Hsum. split; [lia|]. apply IH1. lia.
    + intros [Hpos Hrest]. rewrite (IH2 Hrest). lia.
Qed.

Lemma offered_by_all key shipments :
  (forall s, s ∈ shipments -> NoDup (map rate_key (Shipment.rates s))) ->
  references key (group_rates shipments) = List.length shipments <->
  forall s, s ∈ shipments ->
    exists rate, rate ∈ Shipment.rates s /\ rate_key rate = key.
Proof.
  intros Hnd. rewrite references_group_rates.
  set (count := fun s => List.length (under key (Shipment.rates s))).
  assert (Forall (fun c => (c <= 1)%nat) (map count shipments)) as Hle.
  { apply Forall_fmap, Forall_forall. intros s Hs.
    by apply under_at_most_one, Hnd. }
  rewrite <- (length_map count shipments) at 1.
  rewrite (sum_of_flags _ Hle), Forall_fmap, Forall_forall.
  split; intros H s Hs; apply under_elem_of, H, Hs.
Qed.

(** [Promise.all] is rejected by the first rejection in time. *)
Lemma first_rejection_None {A : Type} (promises : list (nat * Outcome A)) t m :
  first_rejection promises = None -> (t, Throw m) ∉ promises.
Proof.
  induction promises as [|[t0 [v|m0]] rest IH]; simpl.
  - intros _. apply not_elem_of_nil.
  - intros H [[=]|?]%elem_of_cons. by apply IH.
  - destruct (first_rejection rest) as [[t1 m1]|]; [|done].
    by destruct (t1 <? t0)%nat.
Qed.

Lemma first_rejection_Some {A : Type} (promises : list (nat * Outcome A)) t m :
  first_rejection promises = Some (t, m) ->
  (t, Throw m) ∈ promises
  /\ forall t' m', (t', Throw m') ∈ promises -> (t <= t')%nat.
Proof.
  revert t m. induction promises as [|[t0 [v|m0]] rest IH]; simpl; intros t m.
  - done.
  - intros [Hin Hmin]%IH. split; [by right|].
    intros t' m' [[=]|?]%elem_of_cons. by eapply Hmin.
  - destruct (first_rejection rest) as [[t1 m1]|] eqn:Hrest.
    + destruct (IH t1 m1 eq_refl) as [Hin Hmin].
      destruct (Nat.ltb_spec t1 t0); intros [= <- <-].
      * split; [by right|].
        intros t' m' [[= -> ->]|?]%elem_of_cons; [lia | by eapply Hmin].
      * split; [by left|].
        intros t' m' [[= -> ->]|Hin']%elem_of_cons; [lia|].
        specialize (Hmin t' m' Hin'). lia.
    + intros [= <- <-]. split; [by left|].
      intros t' m' [[= -> ->]|Hin']%elem_of_cons; [lia|].
      exfalso. by eapply first_rejection_None.
Qed.

(** [Promise.all] over calls that all return. *)
Lemma Promise_all_imap {A B : Type} (f : nat -> A -> nat * Outcome B)
    (g : nat -> A -> B) (l : list A) :
  (forall i x, l !! i = Some x -> snd (f i x) = Return (g i x)) ->
  Promise_all (imap f l) = Return (imap g l).
Proof.
  unfold Promise_all. revert f g.
  induction l as [|x l IH]; intros f g Hf; simpl; [done|].
  pose proof (Hf 0%nat x eq_refl) as H0.
  destruct (f 0%nat x) as [t o]. simpl in H0. subst o.
  specialize (IH (f ∘ S) (g ∘ S) (fun i y Hy => Hf (S i) y Hy)).
  destruct (first_rejection (imap (f ∘ S) l)) as [[? ?]|]; [done|].
  by injection IH as ->.
Qed.

(** ** Quote requests whose shipment calls all succeed *)

Section QuoteFacts.
Variable post_shipments :
  nat -> ShipmentRequest.t -> nat * Reply ShipmentData.t.

Lemma create_shipment_succeeded destination index pkg :
  succeeded (reply_to post_shipments destination index pkg) = true ->
  snd (create_shipment post_shipments destination index pkg) =
  Return (shipment_of index (reply_to post_shipments destination index pkg)).
Proof.
  unfold create_shipment, reply_to, succeeded, shipment_of, offers.
  destruct (post_shipments index _) as [t [m|status data]]; simpl; [done|].
  by destruct (not_success status).
Qed.

Lemma getRatesForPackages_succeed packages destination :
  all_succeed post_shipments packages destination ->
  getRatesForPackages post_shipments packages destination =
  Return (complete_rates (List.length packages)
            (group_rates (shipments_of post_shipments packages destination))).
Proof.
  intros Hall. unfold getRatesForPackages, shipments_of.
  rewrite (Promise_all_imap _
    (fun index pkg =>
       shipment_of index (reply_to post_shipments destination index pkg)));
    [done|].
  intros i pkg Hi. by apply create_shipment_succeeded, Hall.
Qed.

Lemma getRatesForPackages_returns packages destination quotes :
  getRatesForPackages post_shipments packages destination = Return quotes ->
  all_succeed post_shipments packages destination.
Proof.
  unfold getRatesForPackages, Promise_all. intros Hget index pkg Hpkg.
  destruct (first_rejection _) as [[t m]|] eqn:Hfirst; [done|].
  unfold succeeded, reply_to.
  destruct (post_shipments index (shipmentData destination pkg))
    as [t [m|status data]] eqn:Hreply; simpl.
  - exfalso. eapply (first_rejection_None _ t m); [exact Hfirst|].
    apply elem_of_lookup_imap. exists index, pkg. split; [|done].
    unfold create_shipment. by rewrite Hreply.
  - destruct (not_success status) eqn:Hstatus; [|done].
    exfalso. eapply first_rejection_None; [exact Hfirst|].
    apply elem_of_lookup_imap. exists index, pkg. split; [|done].
    unfold create_shipment. by rewrite Hreply, Hstatus.
Qed.

Lemma shipments_of_offers packages destination (P : list Rate.t -> Prop) :
  (forall s, s ∈ shipments_of post_shipments packages destination ->
     P (Shipment.rates s)) <->
  (forall index pkg, packages !! index = Some pkg ->
     P (offers (reply_to post_shipments destination index pkg))).
Proof.
  unfold shipments_of. split.
  - intros H i pkg Hi.
    apply (H (shipment_of i (reply_to post_shipments destination i pkg))).
    apply elem_of_lookup_imap. by exists i, pkg.
  - intros H s (i & pkg & -> & Hi)%elem_of_lookup_imap. by apply H.
Qed.

(** C1 (as amended): when all shipment calls of a quote request succeed,
    every returned quote has one constituent reference per package; and if
    there is at least one package and no package is offered two rates
    under one key string [provider-token], a quote with a key string is
    returned if and only if every package's offer list has an offer under
    that key string. *)
Theorem quote_iff_offered_for_every_package packages destination :
  all_succeed post_shipments packages destination ->
  exists quotes,
    getRatesForPackages post_shipments packages destination = Return quotes
    /\ (forall q, q ∈ quotes ->
          List.length (Quote.package_rates q) = List.length packages)
    /\ (packages <> [] ->
        (forall index pkg, packages !! index = Some pkg ->
           NoDup (map rate_key
                      (offers (reply_to post_shipments destination index pkg)))) ->
        forall key,
          (exists q, q ∈ quotes /\ Quote.key q = key) <->
          (forall index pkg, packages !! index = Some pkg ->
             exists rate,
               rate ∈ offers (reply_to post_shipments destination index pkg)
               /\ rate_key rate = key)).
Proof.
  intros Hall. eexists. split; [by apply getRatesForPackages_succeed|]. split.
  - intros q (k & g & _ & Hlen & ->)%complete_rates_elem_of. done.
  - intros Hne Hnd key.
    rewrite quoted_iff_references;
      [| apply well_grouped_group_rates | by destruct packages].
    rewrite <- (length_imap
      (fun index pkg =>
         shipment_of index (reply_to post_shipments destination index pkg))
      packages).
    fold (shipments_of post_shipments packages destination).
    rewrite offered_by_all.
    + apply (shipments_of_offers packages destination
               (fun rates => exists rate, rate ∈ rates /\ rate_key rate = key)).
    + by apply (shipments_of_offers packages destination
                  (fun rates => NoDup (map rate_key rates))).
Qed.

(** The amount of a returned quote renders the total of its group, which
    is the sum of its references. *)
Lemma quote_amount_is_float_sum packages destination quotes q :
  getRatesForPackages post_shipments packages destination = Return quotes ->
  q ∈ quotes ->
  Quote.amount q =
  Number.toFixed
    (float_sum (map PackageRate.amount (Quote.package_rates q))) 2.
Proof.
  intros Hget Hq. pose proof (getRatesForPackages_returns _ _ _ Hget) as Hall.
  rewrite getRatesForPackages_succeed in Hget by done. injection Hget as <-.
  apply complete_rates_elem_of in Hq as (k & g & Hin & _ & ->). simpl.
  destruct (well_grouped_group_rates
              (shipments_of post_shipments packages destination))
    as [Hnd _ Hsum].
  apply Map_get_elem_of in Hin; [|done]. by rewrite (Hsum _ _ Hin).
Qed.

(** Two packages with one offer each, both under one key string: the
    offers are merged into a single quote that takes its descriptors from
    the first. *)
Lemma two_offers_merge p0 p1 destination rate0 rate1 :
  succeeded (reply_to post_shipments destination 0 p0) = true ->
  succeeded (reply_to post_shipments destination 1 p1) = true ->
  offers (reply_to post_shipments destination 0 p0) = [rate0] ->
  offers (reply_to post_shipments destination 1 p1) = [rate1] ->
  rate_key rate0 = rate_key rate1 ->
  getRatesForPackages post_shipments [p0; p1] destination =
  Return
    [ {| Quote.key := rate_key rate0;
         Quote.provider := Rate.provider rate0;
         Quote.servicelevel := Rate.servicelevel rate0;
         Quote.estimated_days := Rate.estimated_days rate0;
         Quote.amount :=
           Number.toFixed (float_sum [Rate.amount rate0; Rate.amount rate1]) 2;
         Quote.currency := Rate.currency rate0;
         Quote.package_rates :=
           [ {| PackageRate.packageIndex := 0;
                PackageRate.rate_id := Rate.object_id rate0;
                PackageRate.amount := Rate.amount rate0 |};
             {| PackageRate.packageIndex := 1;
                PackageRate.rate_id := Rate.object_id rate1;
                PackageRate.amount := Rate.amount rate1 |} ] |} ].
Proof.
  intros H0 H1 Ho0 Ho1 Hkey.
  rewrite getRatesForPackages_succeed.
  2:{ intros [|[|i]] pkg; simpl; [by intros [= <-] | by intros [= <-] | done]. }
  unfold shipments_of, group_rates, add_shipment, shipment_of. simpl.
  rewrite Ho0, Ho1. simpl.
  unfold add_rate at 2. unfold Map_has, Map_set. simpl.
  rewrite String.eqb_refl.
  unfold add_rate, Map_has, Map_set. simpl. rewrite <- Hkey.
  rewrite String.eqb_refl. simpl. rewrite String.eqb_refl. simpl.
  done.
Qed.
End QuoteFacts.

(** ** The quote properties on concrete requests *)

Lemma two_parcels_succeed post_shipments :
  succeeded (snd (post_shipments 0%nat
                    (shipmentData Examples.home Examples.parcel))) = true ->
  succeeded (snd (post_shipments 1%nat
                    (shipmentData Examples.home Examples.parcel))) = true ->
  all_succeed post_shipments [Examples.parcel; Examples.parcel] Examples.home.
Proof.
  intros H0 H1 [|[|i]] pkg; simpl; [by intros [= <-] | by intros [= <-] | done].
Defined.

Lemma quote_iff_offered_for_every_package_witness :
  all_succeed Examples.carriers [Examples.parcel; Examples.parcel] Examples.home
  /\ exists quotes,
       getRatesForPackages Examples.carriers
         [Examples.parcel; Examples.parcel] Examples.home = Return quotes
       /\ (forall q, q ∈ quotes -> List.length (Quote.package_rates q) = 2%nat)
       /\ ((exists q, q ∈ quotes /\ Quote.key q = "CarrierX-ground")
           /\ ~ (exists q, q ∈ quotes /\ Quote.key q = "CarrierY-express")).
Proof.
  assert (all_succeed Examples.carriers
            [Examples.parcel; Examples.parcel] Examples.home) as Hall.
  { by apply two_parcels_succeed. }
  split; [exact Hall|].
  destruct (quote_iff_offered_for_every_package Examples.carriers
              [Examples.parcel; Examples.parcel] Examples.home Hall)
    as (quotes & Hget & Hlen & Hiff).
  exists quotes. split; [exact Hget|]. split; [exact Hlen|].
  assert (forall index pkg,
    [Examples.parcel; Examples.parcel] !! index = Some pkg ->
    NoDup (map rate_key
             (offers (reply_to Examples.carriers Examples.home index pkg))))
    as Hnd.
  { intros [|[|i]] pkg; simpl; [intros _ | intros _ | done]; compute_done. }
  specialize (Hiff ltac:(done) Hnd). split.
  - destruct (Hiff "CarrierX-ground") as [_ Hfrom]. apply Hfrom.
    intros [|[|i]] pkg; simpl; [intros _ | intros _ | done].
    + exists (Examples.rate "CarrierX" "ground" "5.00" "rate_a").
      split; [by left | reflexivity].
    + exists (Examples.rate "CarrierX" "ground" "7.50" "rate_c").
      split; [by left | reflexivity].
  - intros Hq. destruct (Hiff "CarrierY-express") as [Hto _].
    destruct (Hto Hq 1%nat Examples.parcel eq_refl) as (r & Hr & Hkey).
    apply list_elem_of_singleton in Hr. subst r. discriminate Hkey.
Defined.

(** C1, as the specification words it, fails: package 0 is offered (A-B, C)
    and package 1 is offered (A, B-C); no pair is offered for both packages,
    and yet a quote of provider A-B and service level C is returned. *)
Lemma quoted_iff_pair_offered_fails :
  all_succeed Examples.hyphenated
    [Examples.parcel; Examples.parcel] Examples.home
  /\ exists quotes,
       getRatesForPackages Examples.hyphenated
         [Examples.parcel; Examples.parcel] Examples.home = Return quotes
       /\ ~ quoted_iff_pair_offered Examples.hyphenated
              [Examples.parcel; Examples.parcel] Examples.home quotes.
Proof.
  split; [by apply two_parcels_succeed|].
  eexists. split; [vm_compute; reflexivity|].
  intros [Hiff _]. destruct (Hiff "A-B" "C") as [Hto _].
  assert (exists rate,
    rate ∈ offers (reply_to Examples.hyphenated Examples.home 1 Examples.parcel)
    /\ Rate.provider rate = "A-B"
    /\ ServiceLevel.token (Rate.servicelevel rate) = "C")
    as (r & Hr & Hprovider & _).
  { apply Hto; [|done]. eexists. split; [by left | done]. }
  apply list_elem_of_singleton in Hr. subst r. discriminate Hprovider.
Qed.

(** Where a package is offered two rates under one key string, the
    references count offers, not packages: here the quote is returned with
    two references to package 0, and package 1 has no offer at all. *)
Example doubled_offer_counts_twice :
  exists q,
    getRatesForPackages Examples.doubled
      [Examples.parcel; Examples.parcel] Examples.home = Return [q]
    /\ map PackageRate.packageIndex (Quote.package_rates q) = [0%nat; 0%nat]
    /\ offers (reply_to Examples.doubled Examples.home 1 Examples.parcel) = [].
Proof. eexists. split; [vm_compute; reflexivity | split; reflexivity]. Qed.

(** C2 (as amended): the amount of every returned quote is the rendering
    with two decimals, by [toFixed(2)], of the binary64 sum of its
    constituent amounts as [parseFloat] reads them, added in order from 0;
    a quote made of the amounts 5.00 and 7.50 has the amount "12.50". *)
Theorem quote_amount_two_decimals post_shipments packages destination quotes q :
  getRatesForPackages post_shipments packages destination = Return quotes ->
  q ∈ quotes ->
  Quote.amount q =
    Number.toFixed
      (float_sum (map PackageRate.amount (Quote.package_rates q))) 2
  /\ (map PackageRate.amount (Quote.package_rates q) = ["5.00"; "7.50"] ->
      Quote.amount q = "12.50").
Proof.
  intros Hget Hq.
  pose proof (quote_amount_is_float_sum post_shipments packages destination
                quotes q Hget Hq) as Hamount.
  split; [exact Hamount|]. intros Hparts. rewrite Hamount, Hparts.
  vm_compute. reflexivity.
Qed.

Lemma quote_amount_two_decimals_witness :
  exists q,
    getRatesForPackages Examples.carriers
      [Examples.parcel; Examples.parcel] Examples.home = Return [q]
    /\ Quote.provider q = "CarrierX"
    /\ Quote.amount q = "12.50".
Proof.
  eexists. split; [vm_compute; reflexivity|]. split; [reflexivity|].
  refine (proj2 (quote_amount_two_decimals Examples.carriers
                   [Examples.parcel; Examples.parcel] Examples.home _ _
                   _ _) _).
  - vm_compute. reflexivity.
  - by left.
  - reflexivity.
Defined.

(** C2, as the specification words it, fails: of 9007199254740992.00 and
    1.00 the exact sum is 9007199254740993.00, the amount returned is
    "9007199254740992.00". *)
Lemma amount_is_exact_sum_fails :
  all_succeed Examples.large [Examples.parcel; Examples.parcel] Examples.home
  /\ exists q,
       getRatesForPackages Examples.large
         [Examples.parcel; Examples.parcel] Examples.home = Return [q]
       /\ map PackageRate.amount (Quote.package_rates q)
          = ["9007199254740992.00"; "1.00"]
       /\ Quote.amount q = "9007199254740992.00"
       /\ exact_sum_two_places ["9007199254740992.00"; "1.00"]
          = Some "9007199254740993.00"
       /\ ~ amount_is_exact_sum q.
Proof.
  split; [by apply two_parcels_succeed|].
  eexists. split; [vm_compute; reflexivity|].
  split; [reflexivity|]. split; [reflexivity|].
  split; [vm_compute; reflexivity|].
  unfold amount_is_exact_sum. vm_compute. discriminate.
Qed.

(** Where the sum is not a number, or reaches 10^21, [toFixed(2)] does not
    give two decimals. *)
Example amount_without_two_decimals :
  Number.toFixed (float_sum ["1000000000000000000000.00"; "1.00"]) 2 = "1e+21"
  /\ Number.toFixed (float_sum ["5.00"; "n/a"]) 2 = "NaN".
Proof. split; vm_compute; reflexivity. Qed.

(** A returned quote gathers the offers under its key string, in the order
    in which they are met, and is described by the first of them. *)
Lemma quote_of_offers_under post_shipments packages destination quotes q :
  getRatesForPackages post_shipments packages destination = Return quotes ->
  q ∈ quotes ->
  exists first rest,
    offers_under (Quote.key q)
      (all_offers (shipments_of post_shipments packages destination))
    = first :: rest
    /\ Quote.provider q = Rate.provider (snd first)
    /\ Quote.servicelevel q = Rate.servicelevel (snd first)
    /\ Quote.estimated_days q = Rate.estimated_days (snd first)
    /\ Quote.package_rates q = map reference (first :: rest).
Proof.
  intros Hget Hq.
  pose proof (getRatesForPackages_returns _ _ _ _ Hget) as Hall.
  rewrite getRatesForPackages_succeed in Hget by done. injection Hget as <-.
  apply complete_rates_elem_of in Hq as (k & g & Hin & _ & ->).
  destruct (well_grouped_group_rates
              (shipments_of post_shipments packages destination))
    as [Hnd _ _].
  apply Map_get_elem_of in Hin; [|done].
  rewrite (group_rates_get _ k) in Hin. cbn [quote_of Quote.key].
  destruct (offers_under k _) as [|first rest]; [done|].
  injection Hin as <-. by exists first, rest.
Qed.

(** C9: the offers are grouped by the key string [provider-token], not by
    the pair: every returned quote gathers all the offers met under its key
    string and takes its provider, service level and estimated days from
    the first of them; so two offers of distinct (provider, token) pairs
    with equal key strings, one for each of two packages, are merged into a
    single quote described by the first. *)
Theorem colliding_key_strings_merge post_shipments destination :
  (forall packages quotes q,
     getRatesForPackages post_shipments packages destination = Return quotes ->
     q ∈ quotes ->
     exists first rest,
       offers_under (Quote.key q)
         (all_offers (shipments_of post_shipments packages destination))
       = first :: rest
       /\ Quote.provider q = Rate.provider (snd first)
       /\ Quote.servicelevel q = Rate.servicelevel (snd first)
       /\ Quote.estimated_days q = Rate.estimated_days (snd first)
       /\ Quote.package_rates q = map reference (first :: rest))
  /\ (forall p0 p1 rate0 rate1,
        succeeded (reply_to post_shipments destination 0 p0) = true ->
        succeeded (reply_to post_shipments destination 1 p1) = true ->
        offers (reply_to post_shipments destination 0 p0) = [rate0] ->
        offers (reply_to post_shipments destination 1 p1) = [rate1] ->
        (Rate.provider rate0, ServiceLevel.token (Rate.servicelevel rate0))
          <> (Rate.provider rate1, ServiceLevel.token (Rate.servicelevel rate1)) ->
        rate_key rate0 = rate_key rate1 ->
        exists q,
          getRatesForPackages post_shipments [p0; p1] destination = Return [q]
          /\ Quote.provider q = Rate.provider rate0
          /\ Quote.servicelevel q = Rate.servicelevel rate0
          /\ Quote.estimated_days q = Rate.estimated_days rate0
          /\ Quote.package_rates q = [reference (0%nat, rate0);
                                      reference (1%nat, rate1)]).
Proof.
  split.
  - intros packages quotes q. apply quote_of_offers_under.
  - intros p0 p1 rate0 rate1 H0 H1 Ho0 Ho1 _ Hkey. eexists. split.
    + by apply two_offers_merge.
    + done.
Qed.

Lemma colliding_key_strings_merge_witness :
  (Rate.provider (Examples.rate "A-B" "C" "5.00" "rate_a"),
   ServiceLevel.token (Rate.servicelevel (Examples.rate "A-B" "C" "5.00" "rate_a")))
  <> (Rate.provider (Examples.rate "A" "B-C" "7.50" "rate_b"),
      ServiceLevel.token (Rate.servicelevel (Examples.rate "A" "B-C" "7.50" "rate_b")))
  /\ exists q,
       getRatesForPackages Examples.hyphenated
         [Examples.parcel; Examples.parcel] Examples.home = Return [q]
       /\ Quote.provider q = "A-B"
       /\ Quote.servicelevel q
          = {| ServiceLevel.token := "C"; ServiceLevel.name := "C" |}
       /\ Quote.estimated_days q = Some 3%Z
       /\ map PackageRate.rate_id (Quote.package_rates q) = ["rate_a"; "rate_b"].
Proof.
  split; [discriminate|].
  destruct (proj2 (colliding_key_strings_merge Examples.hyphenated Examples.home)
              Examples.parcel Examples.parcel
              (Examples.rate "A-B" "C" "5.00" "rate_a")
              (Examples.rate "A" "B-C" "7.50" "rate_b")
              eq_refl eq_refl eq_refl eq_refl ltac:(discriminate) eq_refl)
    as (q & Hget & Hprovider & Hlevel & Hdays & Hrefs).
  exists q. rewrite Hprovider, Hlevel, Hdays, Hrefs. split; [exact Hget|].
  repeat split.
Defined.

(** ** Facts about the purchase of labels *)

Arguments purchaseLabel : simpl never.
Arguments printLabels : simpl never.
Arguments printPackingSlip : simpl never.
Arguments complete_purchase : simpl never.
Arguments complete_purchase_body : simpl never.
Arguments logOrderDetails : simpl never.

Section PurchaseFacts.
Variable env : Env.t.

Lemma purchaseLabel_world rateId w :
  snd (purchaseLabel env rateId w) = record_transaction rateId w.
Proof. done. Qed.

(** The loop returns after a call for every pair, or throws at the first
    call that throws, with a call for every pair up to that one. *)
Lemma purchase_loop_returns packageRates results w :
  forall labels w',
    purchase_loop env packageRates results w = (Return labels, w') ->
    completedOrders w' = completedOrders w
    /\ printjobs w' = printjobs w
    /\ transactions w'
       = (transactions w ++ map PackageRate.rate_id packageRates)%list
    /\ List.length labels
       = (List.length results + List.length packageRates)%nat
    /\ map LabelResult.packageIndex labels
       = (map LabelResult.packageIndex results
          ++ map PackageRate.packageIndex packageRates)%list.
Proof.
  revert results w.
  induction packageRates as [|rate rest IH]; cbn [purchase_loop];
    intros results w labels w'.
  - intros [= <- <-]. rewrite !app_nil_r. split_and!; try done; lia.
  - destruct (purchaseLabel env (PackageRate.rate_id rate) w)
      as [[labelInfo|message] w1] eqn:Hcall; [|intros [=]].
    pose proof (purchaseLabel_world (PackageRate.rate_id rate) w) as Hw.
    rewrite Hcall in Hw. simpl in Hw. subst w1.
    intros (Hc & Hp & Ht & Hl & Hi)%IH. simpl in *.
    rewrite Hc, Hp, Ht, Hl, Hi, length_app, map_app, <- !app_assoc. simpl.
    split_and!; try done; lia.
Qed.

Lemma purchase_loop_throws packageRates results w :
  forall message w',
    purchase_loop env packageRates results w = (Throw message, w') ->
    exists before rate after labels w1,
      packageRates = (before ++ rate :: after)%list
      /\ purchase_loop env before results w = (Return labels, w1)
      /\ purchaseLabel env (PackageRate.rate_id rate) w1 = (Throw message, w').
Proof.
  revert results w.
  induction packageRates as [|rate rest IH]; cbn [purchase_loop];
    intros results w message w';
    [done|].
  destruct (purchaseLabel env (PackageRate.rate_id rate) w)
    as [[labelInfo|message'] w1] eqn:Hcall.
  - intros (before & r & after & labels & w2 & -> & Hloop & Hthrow)%IH.
    exists (rate :: before), r, after, labels, w2.
    cbn [purchase_loop app]. by rewrite Hcall.
  - intros [= <- <-]. by exists [], rate, rest, results, w.
Qed.

Lemma purchase_loop_app before after results w labels w1 :
  purchase_loop env before results w = (Return labels, w1) ->
  purchase_loop env (before ++ after) results w
  = purchase_loop env after labels w1.
Proof.
  revert results w.
  induction before as [|rate rest IH]; cbn [purchase_loop app]; intros results w.
  - by intros [= <- <-].
  - destruct (purchaseLabel env (PackageRate.rate_id rate) w)
      as [[labelInfo|message'] w2]; [apply IH | done].
Qed.

(** Whatever the outcome, the loop touches neither the ledger nor the
    printer, and issues the calls of a prefix of the pairs, in their
    order: of at least one pair if there is one. *)
Lemma purchase_loop_calls packageRates results w :
  exists k,
    (k <= List.length packageRates)%nat
    /\ (packageRates <> [] -> (1 <= k)%nat)
    /\ completedOrders (snd (purchase_loop env packageRates results w))
       = completedOrders w
    /\ printjobs (snd (purchase_loop env packageRates results w))
       = printjobs w
    /\ transactions (snd (purchase_loop env packageRates results w))
       = (transactions w
          ++ map PackageRate.rate_id (take k packageRates))%list.
Proof.
  revert results w.
  induction packageRates as [|rate rest IH]; cbn [purchase_loop];
    intros results w.
  - exists 0%nat. rewrite app_nil_r. split_and!; done.
  - destruct (purchaseLabel env (PackageRate.rate_id rate) w)
      as [[labelInfo|message] w1] eqn:Hcall;
      pose proof (purchaseLabel_world (PackageRate.rate_id rate) w) as Hw;
      rewrite Hcall in Hw; simpl in Hw; subst w1.
    + destruct (IH (results ++ [label_result rate labelInfo])%list
                   (record_transaction (PackageRate.rate_id rate) w))
        as (k & Hk & _ & Hc & Hp & Ht).
      exists (S k). rewrite Hc, Hp, Ht. simpl. rewrite <- app_assoc.
      split_and!; try done; lia.
    + exists 1%nat. simpl. split_and!; try done; lia.
Qed.

(** The print calls only post print jobs. *)
Lemma print_loop_frame customerName i labelUrls w :
  completedOrders (snd (print_loop env customerName i labelUrls w))
    = completedOrders w
  /\ transactions (snd (print_loop env customerName i labelUrls w))
     = transactions w.
Proof.
  revert i w. induction labelUrls as [|url rest IH]; simpl; intros i w; [done|].
  destruct (Env.post_printjobs env _ _); simpl; [done|].
  match goal with
  | |- context [print_loop env _ _ _ ?w'] =>
      destruct (IH (S i) w') as [-> ->]
  end. done.
Qed.

Lemma printLabels_frame labelUrls customerName w :
  completedOrders (snd (printLabels env labelUrls customerName w))
    = completedOrders w
  /\ transactions (snd (printLabels env labelUrls customerName w))
     = transactions w.
Proof.
  unfold printLabels. destruct (printer_not_configured env); [done|].
  apply print_loop_frame.
Qed.

Lemma printPackingSlip_frame destination packages labelResults selectedRate w :
  completedOrders
    (snd (printPackingSlip env destination packages labelResults selectedRate w))
    = completedOrders w
  /\ transactions
       (snd (printPackingSlip env destination packages labelResults
               selectedRate w))
     = transactions w.
Proof.
  unfold printPackingSlip. destruct (printer_not_configured env); [done|].
  destruct (Env.packing_slip_base64 env _ _ _ _); [|done].
  by destruct (Env.post_printjobs env _ _).
Qed.

Lemma listed_shaped packages : listed (map Some packages) = Some packages.
Proof. induction packages as [|pkg packages IH]; simpl; by rewrite ?IH. Qed.


(** A body of the shape of [PurchaseRequest.t] is logged without a
    throw. *)
Lemma logOrderDetails_shaped destination labelResults packages :
  logOrderDetails destination labelResults (Some (map Some packages))
  = Return tt.
Proof. unfold logOrderDetails. by rewrite listed_shaped. Qed.

(** [printLabels] is its run to the first [await] followed by the rest of
    its loop. *)
Lemma printLabels_in_two labelUrls customerName w :
  printLabels env labelUrls customerName w
  = if printer_not_configured env then (false, w)
    else
      let '(reached, w1) :=
        print_loop env customerName 0 (take 1 labelUrls) w in
      if reached then print_loop env customerName 1 (drop 1 labelUrls) w1
      else (false, w1).
Proof.
  unfold printLabels. destruct (printer_not_configured env); [done|].
  destruct labelUrls as [|url rest]; [done|].
  cbn [take drop print_loop].
  by destruct (Env.post_printjobs env (printjobs w) _).
Qed.

(** The printing started by the handler touches neither the ledger nor
    the carrier. *)
Lemma printing_frame (body : PurchaseBody.t) labelResults w :
  let labelUrls := map LabelResult.label_url labelResults in
  let customerName := Destination.name (PurchaseBody.destination body) in
  let first :=
    if printer_not_configured env then (false, w)
    else print_loop env customerName 0 (take 1 labelUrls) w in
  let slip :=
    match packages_listed (PurchaseBody.packages body) with
    | Some packages =>
        printPackingSlip env (PurchaseBody.destination body) packages
          labelResults (PurchaseBody.selectedRate body) (snd first)
    | None => (false, snd first)
    end in
  let printed :=
    if fst first
    then snd (print_loop env customerName 1 (drop 1 labelUrls) (snd slip))
    else snd slip in
  completedOrders printed = completedOrders w
  /\ transactions printed = transactions w.
Proof.
  intros labelUrls customerName first slip printed.
  assert (completedOrders (snd first) = completedOrders w
          /\ transactions (snd first) = transactions w) as [Hc1 Ht1].
  { unfold first. destruct (printer_not_configured env); [done|].
    apply print_loop_frame. }
  assert (completedOrders (snd slip) = completedOrders (snd first)
          /\ transactions (snd slip) = transactions (snd first))
    as [Hc2 Ht2].
  { unfold slip. destruct (packages_listed _); [|done].
    apply printPackingSlip_frame. }
  unfold printed. destruct (fst first).
  - destruct (print_loop_frame customerName 1 (drop 1 labelUrls) (snd slip))
      as [-> ->].
    by rewrite Hc2, Ht2.
  - by rewrite Hc2, Ht2.
Qed.

(** The end of a purchase whose labels are bought, whatever the printer
    does: it is decided by [logOrderDetails]. *)
Lemma complete_purchase_body_spec body labelResults now w :
  transactions (snd (complete_purchase_body env body labelResults now w))
  = transactions w
  /\ match logOrderDetails (PurchaseBody.destination body) labelResults
              (PurchaseBody.packages body) with
     | Return _ =>
         fst (complete_purchase_body env body labelResults now w)
         = respond 200 (LabelsBody true labelResults)
         /\ completedOrders
              (snd (complete_purchase_body env body labelResults now w))
            = match idempotency_key (PurchaseBody.pkgId body) with
              | Some key =>
                  <[key := orderData (PurchaseBody.selectedRate body)
                             labelResults now]> (completedOrders w)
              | None => completedOrders w
              end
     | Throw message =>
         fst (complete_purchase_body env body labelResults now w)
         = respond 400 (ErrorBody message)
         /\ completedOrders
              (snd (complete_purchase_body env body labelResults now w))
            = completedOrders w
     end.
Proof.
  pose proof (printing_frame body labelResults w) as Hframe.
  cbv zeta in Hframe. unfold complete_purchase_body.
  destruct (if printer_not_configured env then _ else _) as [reached w1].
  cbn [fst snd] in Hframe.
  destruct (match packages_listed (PurchaseBody.packages body) with
            | Some _ => _ | None => _ end) as [printed w2].
  cbn [fst snd] in Hframe. destruct Hframe as [Hc Ht].
  destruct (logOrderDetails _ _ _) as [[]|message]; cbn [fst snd].
  - destruct (idempotency_key (PurchaseBody.pkgId body)); simpl;
      by rewrite Hc, Ht.
  - done.
Qed.

(** The end of a successful purchase, whatever the printer does. *)
Lemma complete_purchase_spec req labelResults now w :
  fst (complete_purchase env req labelResults now w)
    = respond 200 (LabelsBody true labelResults)
  /\ transactions (snd (complete_purchase env req labelResults now w))
     = transactions w
  /\ completedOrders (snd (complete_purchase env req labelResults now w))
     = match idempotency_key (PurchaseRequest.pkgId req) with
       | Some key =>
           <[key := orderData (PurchaseRequest.selectedRate req)
                      labelResults now]> (completedOrders w)
       | None => completedOrders w
       end.
Proof.
  unfold complete_purchase.
  destruct (complete_purchase_body_spec (PurchaseBody.of_request req)
              labelResults now w) as [Ht Hlogged].
  cbn [PurchaseBody.of_request PurchaseBody.packages
       PurchaseBody.destination PurchaseBody.pkgId
       PurchaseBody.selectedRate] in Hlogged.
  rewrite logOrderDetails_shaped in Hlogged. by destruct Hlogged.
Qed.
End PurchaseFacts.

(** ** The purchase route *)

Lemma after_calls_snoc rateIds rateId w :
  after_calls (rateIds ++ [rateId]) w
  = record_transaction rateId (after_calls rateIds w).
Proof. unfold after_calls. by rewrite fold_left_app. Qed.

Lemma after_calls_world rateIds w :
  completedOrders (after_calls rateIds w) = completedOrders w
  /\ printjobs (after_calls rateIds w) = printjobs w
  /\ transactions (after_calls rateIds w)
     = (transactions w ++ rateIds)%list.
Proof.
  unfold after_calls. revert w.
  induction rateIds as [|r rateIds IH]; simpl; intros w.
  - by rewrite app_nil_r.
  - destruct (IH (record_transaction r w)) as (-> & -> & ->). simpl.
    by rewrite <- app_assoc.
Qed.

Section PurchaseRoute.
Variable env : Env.t.

Lemma already_completed_spec pkgId w :
  already_completed pkgId w = true <->
  exists key, idempotency_key pkgId = Some key
              /\ is_Some (completedOrders w !! key).
Proof.
  unfold already_completed, has_order.
  destruct (idempotency_key pkgId) as [key|].
  - destruct (completedOrders w !! key) as [record|] eqn:Hrecord.
    + split; [intros _; exists key; eauto | done].
    + split; [done | intros (? & [= <-] & [? ?]); congruence].
  - split; [done | by intros (? & ? & _)].
Qed.

(** What a purchase request does to the ledger and to the carrier,
    whatever the printer: by the three ways through the handler. *)
Lemma purchase_cases req now w :
  let packageRates := PurchaseRequest.package_rates req in
  (already_completed (PurchaseRequest.pkgId req) w = true
   /\ purchase env req now w
      = (respond 400 (ErrorBody "This order has already been completed"), w))
  \/ (already_completed (PurchaseRequest.pkgId req) w = false
      /\ exists message w1,
           purchaseAllLabels env packageRates w = (Throw message, w1)
           /\ purchase env req now w = (respond 400 (ErrorBody message), w1))
  \/ (already_completed (PurchaseRequest.pkgId req) w = false
      /\ exists labels w1,
           purchaseAllLabels env packageRates w = (Return labels, w1)
           /\ purchase env req now w = complete_purchase env req labels now w1).
Proof.
  intros packageRates. unfold purchase. fold packageRates.
  destruct (already_completed _ w); [by left | right].
  destruct (purchaseAllLabels env packageRates w) as [[labels|message] w1].
  - right. split; [done|]. by exists labels, w1.
  - left. split; [done|]. by exists message, w1.
Qed.

Lemma purchaseAllLabels_frame packageRates w :
  completedOrders (snd (purchaseAllLabels env packageRates w))
    = completedOrders w
  /\ printjobs (snd (purchaseAllLabels env packageRates w)) = printjobs w.
Proof.
  destruct (purchase_loop_calls env packageRates [] w)
    as (k & _ & _ & Hc & Hp & _). done.
Qed.

(** A record of the ledger survives every request. *)
Lemma serve_keeps_records r w key record :
  completedOrders w !! key = Some record ->
  completedOrders (snd (serve env r w)) !! key = Some record.
Proof.
  intros Hrecord. destruct r as [url|packages destination|req now]; simpl;
    [done | done |].
  replace (snd (let '(response, w0) := purchase env req now w in
                (Return response, w0)))
    with (snd (purchase env req now w))
    by (by destruct (purchase env req now w)).
  destruct (purchase_cases req now w)
    as [[_ ->]|[(_ & m & w1 & Hloop & ->)|(Hnew & labels & w1 & Hloop & ->)]];
    simpl; [done | |].
  - pose proof (purchaseAllLabels_frame (PurchaseRequest.package_rates req) w)
      as [Hc _]. rewrite Hloop in Hc. simpl in Hc. by rewrite Hc.
  - pose proof (purchaseAllLabels_frame (PurchaseRequest.package_rates req) w)
      as [Hc _]. rewrite Hloop in Hc. simpl in Hc.
    destruct (complete_purchase_spec env req labels now w1) as (_ & _ & ->).
    rewrite Hc.
    destruct (idempotency_key (PurchaseRequest.pkgId req)) as [key'|] eqn:Hkey;
      [|done].
    rewrite lookup_insert_ne; [done|]. intros ->.
    assert (already_completed (PurchaseRequest.pkgId req) w = true) as Hdup.
    { apply already_completed_spec. exists key. rewrite Hrecord. eauto. }
    congruence.
Qed.

Lemma serve_all_keeps_records requests w key record :
  completedOrders w !! key = Some record ->
  completedOrders (serve_all env requests w) !! key = Some record.
Proof.
  unfold serve_all. revert w.
  induction requests as [|r requests IH]; simpl; intros w Hrecord; [done|].
  by apply IH, serve_keeps_records.
Qed.

(** The handler that nothing interrupts is the handler of the events,
    run from the arrival of its request to its response. *)
Lemma settle_advance req packageRates results now w :
  settle env (List.length packageRates) now
         (advance env req packageRates results now w)
  = match purchase_loop env packageRates results w with
    | (Throw message, w1) => (inl (respond 400 (ErrorBody message)), w1)
    | (Return labels, w1) =>
        let '(response, w2) := complete_purchase env req labels now w1 in
        (inl response, w2)
    end.
Proof.
  revert results w.
  induction packageRates as [|rate rest IH]; intros results w;
    cbn [advance purchase_loop List.length].
  - destruct (complete_purchase env req results now w); done.
  - destruct (purchaseLabel env (PackageRate.rate_id rate) w)
      as [[labelInfo|message] w1]; cbn [settle]; unfold resume; simpl.
    + apply IH.
    + by destruct rest.
Qed.

Lemma settle_arrive req now w :
  settle env (List.length (PurchaseRequest.package_rates req)) now
         (arrive env req now w)
  = (inl (fst (purchase env req now w)), snd (purchase env req now w)).
Proof.
  unfold arrive, purchase, purchaseAllLabels.
  destruct (already_completed _ w).
  - by destruct (PurchaseRequest.package_rates req).
  - rewrite settle_advance.
    destruct (purchase_loop env _ [] w) as [[labels|message] w1]; [|done].
    by destruct (complete_purchase env req labels now w1).
Qed.

(** C3: a purchase request whose idempotency key has a record in the
    ledger is answered 400 "This order has already been completed"; the
    state is the one before: no call to the carrier's label service, no
    print job, the same ledger. This happens before the handler first
    awaits, so that no other request comes in between. *)
Theorem duplicate_order_rejected req now w key :
  idempotency_key (PurchaseRequest.pkgId req) = Some key ->
  is_Some (completedOrders w !! key) ->
  purchase env req now w
    = (respond 400 (ErrorBody "This order has already been completed"), w)
  /\ arrive env req now w
     = (inl (respond 400 (ErrorBody "This order has already been completed")),
        w).
Proof.
  intros Hkey Hrecord.
  assert (already_completed (PurchaseRequest.pkgId req) w = true) as Hdup.
  { apply already_completed_spec. eauto. }
  unfold purchase, arrive. by rewrite Hdup.
Qed.

(** C4 (as amended): the purchases are made one after the other in the
    order of the pairs, each call issued when the earlier ones are
    answered; if those of the pairs [before] succeed and that of the next
    pair [rate] fails, [purchaseAllLabels] throws the message of that
    failure and nothing else: the labels completed so far, as many as
    there are pairs in [before], are not part of the outcome, the route
    answers 400 with the message alone, and the ledger is untouched.
    The calls made are those of [before] and of [rate], in this order:
    none for a pair of [after], and none that takes a label back. *)
Theorem purchase_stops_at_first_failure
    before rate after w labels w1 message :
  purchaseAllLabels env before w = (Return labels, w1) ->
  fst (purchaseLabel env (PackageRate.rate_id rate) w1) = Throw message ->
  exists w',
    purchaseAllLabels env (before ++ rate :: after) w = (Throw message, w')
    /\ List.length labels = List.length before
    /\ transactions w1
       = (transactions w ++ map PackageRate.rate_id before)%list
    /\ transactions w'
       = (transactions w ++ map PackageRate.rate_id (before ++ [rate]))%list
    /\ completedOrders w' = completedOrders w
    /\ printjobs w' = printjobs w
    /\ forall req now,
         PurchaseRequest.package_rates req = (before ++ rate :: after)%list ->
         already_completed (PurchaseRequest.pkgId req) w = false ->
         purchase env req now w = (respond 400 (ErrorBody message), w').
Proof.
  unfold purchaseAllLabels. intros Hbefore Hfail.
  destruct (purchase_loop_returns env before [] w labels w1 Hbefore)
    as (Hc & Hp & Ht & Hl & _).
  exists (record_transaction (PackageRate.rate_id rate) w1).
  assert (purchase_loop env (before ++ rate :: after) [] w
          = (Throw message, record_transaction (PackageRate.rate_id rate) w1))
    as Hloop.
  { rewrite (purchase_loop_app env before (rate :: after) [] w labels w1 Hbefore).
    cbn [purchase_loop].
    pose proof (purchaseLabel_world env (PackageRate.rate_id rate) w1) as Hw.
    destruct (purchaseLabel env (PackageRate.rate_id rate) w1) as [o w2].
    simpl in Hfail, Hw. by subst. }
  split_and!; try done.
  - simpl. rewrite Ht, map_app, app_assoc. done.
  - intros req now Hrates Hnew. unfold purchase, purchaseAllLabels.
    by rewrite Hnew, Hrates, Hloop.
Qed.


Lemma purchase_loop_issued packageRates results w labelInfos :
  labels_issued env packageRates w labelInfos ->
  purchase_loop env packageRates results w
  = (Return (results ++ zip_with label_result packageRates labelInfos)%list,
     after_calls (map PackageRate.rate_id packageRates) w).
Proof.
  revert results w labelInfos.
  induction packageRates as [|rate rest IH]; intros results w labelInfos
    [Hlength Hcalls].
  - destruct labelInfos; [|done]. simpl. by rewrite app_nil_r.
  - destruct labelInfos as [|labelInfo labelInfos]; [done|].
    cbn [purchase_loop].
    pose proof (Hcalls 0%nat rate labelInfo eq_refl eq_refl) as Hfirst.
    pose proof (purchaseLabel_world env (PackageRate.rate_id rate) w) as Hw.
    change (after_calls (map PackageRate.rate_id (take 0 (rate :: rest))) w)
      with w in Hfirst.
    destruct (purchaseLabel env (PackageRate.rate_id rate) w) as [o w1].
    simpl in Hfirst, Hw. subst o w1.
    rewrite (IH _ _ labelInfos).
    + cbn [zip_with map]. by rewrite <- app_assoc.
    + split; [by injection Hlength|].
      intros i r info Hr Hinfo. exact (Hcalls (S i) r info Hr Hinfo).
Qed.

Lemma purchase_loop_refused before rate after results w labelInfos message :
  labels_issued env before w labelInfos ->
  fst (purchaseLabel env (PackageRate.rate_id rate)
         (after_calls (map PackageRate.rate_id before) w)) = Throw message ->
  purchase_loop env (before ++ rate :: after) results w
  = (Throw message,
     after_calls (map PackageRate.rate_id (before ++ [rate])) w).
Proof.
  intros Hissued Hrefused.
  rewrite (purchase_loop_app env before (rate :: after) results w _ _
             (purchase_loop_issued before results w labelInfos Hissued)).
  cbn [purchase_loop].
  pose proof (purchaseLabel_world env (PackageRate.rate_id rate)
                (after_calls (map PackageRate.rate_id before) w)) as Hw.
  destruct (purchaseLabel env (PackageRate.rate_id rate) _) as [o w1].
  simpl in Hrefused, Hw. subst o w1.
  rewrite map_app. cbn [map]. by rewrite after_calls_snoc.
Qed.

(** C10: a purchase request without an idempotency key ([pkgId] absent,
    null or empty) is not checked against the ledger, and the label
    purchases are made, from any state. When the call for every pair is
    answered with a label, there is one call for each pair, in the order
    of the pairs, the answer is 200 with the label of every pair, and the
    ledger is left as it was; the same request once more makes all its
    calls once more and is answered with its labels again. When the call
    for a pair is refused, the calls are those for the pairs up to this
    one, the answer is 400 with the message, and the ledger and the print
    jobs are left as they were. *)
Theorem purchase_without_key req now w :
  idempotency_key (PurchaseRequest.pkgId req) = None ->
  let packageRates := PurchaseRequest.package_rates req in
  let rateIds := map PackageRate.rate_id packageRates in
  let done_once := purchase env req now w in
  (forall labelInfos,
     labels_issued env packageRates w labelInfos ->
     fst done_once
     = respond 200
         (LabelsBody true (zip_with label_result packageRates labelInfos))
     /\ transactions (snd done_once) = (transactions w ++ rateIds)%list
     /\ completedOrders (snd done_once) = completedOrders w
     /\ forall now' labelInfos',
          labels_issued env packageRates (snd done_once) labelInfos' ->
          let done_twice := purchase env req now' (snd done_once) in
          fst done_twice
          = respond 200
              (LabelsBody true
                 (zip_with label_result packageRates labelInfos'))
          /\ transactions (snd done_twice)
             = (transactions w ++ rateIds ++ rateIds)%list
          /\ completedOrders (snd done_twice) = completedOrders w)
  /\ (forall before rate after labelInfos message,
        packageRates = (before ++ rate :: after)%list ->
        labels_issued env before w labelInfos ->
        fst (purchaseLabel env (PackageRate.rate_id rate)
               (after_calls (map PackageRate.rate_id before) w))
        = Throw message ->
        done_once
        = (respond 400 (ErrorBody message),
           after_calls (map PackageRate.rate_id (before ++ [rate])) w)).
Proof.
  intros Hkey packageRates rateIds.
  assert (forall w0, already_completed (PurchaseRequest.pkgId req) w0 = false)
    as Hunchecked.
  { intros w0. unfold already_completed. by rewrite Hkey. }
  assert (forall now0 w0 labelInfos,
            labels_issued env packageRates w0 labelInfos ->
            fst (purchase env req now0 w0)
            = respond 200
                (LabelsBody true
                   (zip_with label_result packageRates labelInfos))
            /\ transactions (snd (purchase env req now0 w0))
               = (transactions w0 ++ rateIds)%list
            /\ completedOrders (snd (purchase env req now0 w0))
               = completedOrders w0) as Hbought.
  { intros now0 w0 labelInfos Hissued. unfold purchase, purchaseAllLabels.
    rewrite Hunchecked. fold packageRates.
    rewrite (purchase_loop_issued packageRates [] w0 labelInfos Hissued).
    cbn [app]. fold rateIds.
    destruct (complete_purchase_spec env req
                (zip_with label_result packageRates labelInfos) now0
                (after_calls rateIds w0)) as (-> & -> & ->).
    rewrite Hkey.
    destruct (after_calls_world rateIds w0) as (-> & _ & ->). done. }
  intros done_once. subst done_once. split.
  - intros labelInfos Hissued.
    destruct (Hbought now w labelInfos Hissued) as (Hanswer & Hcalls & Hledger).
    split_and!; [done | done | done |].
    intros now' labelInfos' Hissued' done_twice.
    destruct (Hbought now' _ labelInfos' Hissued')
      as (Hanswer' & Hcalls' & Hledger').
    unfold done_twice. split_and!; [done | | by rewrite Hledger', Hledger].
    rewrite Hcalls', Hcalls. by rewrite <- app_assoc.
  - intros before rate after labelInfos message Hpairs Hissued Hrefused.
    unfold purchase, purchaseAllLabels.
    rewrite Hunchecked. fold packageRates. rewrite Hpairs.
    by rewrite (purchase_loop_refused before rate after [] w labelInfos
                  message Hissued Hrefused).
Qed.
End PurchaseRoute.

(** ** The printer has no say in a purchase *)





(** ** A failed shipment call fails the quote request *)

Section RatesRoute.
Variable env : Env.t.


End RatesRoute.

(** ** The purchase properties on concrete requests *)

(** The state after the order [order-1] is bought from the initial state. *)
Lemma bought_order_1 :
  exists record,
    completedOrders (snd (purchase Examples.shop Examples.order_1
                            "2024-05-01T10:00:00.000Z" initial))
      !! "order-1" = Some record.
Proof. eexists. vm_compute. reflexivity. Defined.

Lemma duplicate_order_rejected_witness :
  let w1 := snd (purchase Examples.shop Examples.order_1
                   "2024-05-01T10:00:00.000Z" initial) in
  transactions w1 = ["rate_a"; "rate_b"]
  /\ purchase Examples.shop Examples.order_1 "2024-05-01T11:00:00.000Z" w1
     = (respond 400 (ErrorBody "This order has already been completed"), w1).
Proof.
  intros w1. split; [vm_compute; reflexivity|].
  exact (proj1 (duplicate_order_rejected Examples.shop Examples.order_1
                  "2024-05-01T11:00:00.000Z" w1 "order-1" eq_refl
                  bought_order_1)).
Defined.

Lemma purchase_stops_at_first_failure_witness :
  exists w',
    purchaseAllLabels Examples.shop
      [Examples.pair 0 "rate_a"; Examples.pair 1 "rate_bad";
       Examples.pair 2 "rate_c"] initial
      = (Throw "Invalid rate", w')
    /\ transactions w' = ["rate_a"; "rate_bad"]
    /\ completedOrders w' = ∅.
Proof.
  assert (purchaseAllLabels Examples.shop [Examples.pair 0 "rate_a"] initial
          = (Return (labels_of_outcome
                       (fst (purchaseAllLabels Examples.shop
                               [Examples.pair 0 "rate_a"] initial))),
             snd (purchaseAllLabels Examples.shop
                    [Examples.pair 0 "rate_a"] initial))) as Hfirst.
  { vm_compute. reflexivity. }
  destruct (purchase_stops_at_first_failure Examples.shop
              [Examples.pair 0 "rate_a"] (Examples.pair 1 "rate_bad")
              [Examples.pair 2 "rate_c"] initial _ _
              "Invalid rate" Hfirst eq_refl)
    as (w' & Hthrow & _ & _ & Hcalls & Hledger & _).
  exists w'. split; [exact Hthrow|]. split; [exact Hcalls | exact Hledger].
Defined.

(** C4, as the specification words it, fails: of two pairs the second is
    refused with "Invalid rate"; the label of the first was bought, and no
    label is in the outcome of [purchaseAllLabels], in the response or in
    the ledger. *)
Lemma partial_results_kept_fails :
  exists outcome response w',
    purchaseAllLabels Examples.shop
      (PurchaseRequest.package_rates Examples.order_refused) initial
      = (outcome, w')
    /\ purchase Examples.shop Examples.order_refused
         "2024-05-01T10:00:00.000Z" initial = (response, w')
    /\ outcome = Throw "Invalid rate"
    /\ response = respond 400 (ErrorBody "Invalid rate")
    /\ transactions w' = ["rate_a"; "rate_bad"]
    /\ ~ partial_results_kept 2 outcome response w'.
Proof.
  do 3 eexists. split; [vm_compute; reflexivity|].
  split; [vm_compute; reflexivity|].
  split; [reflexivity|]. split; [reflexivity|]. split; [reflexivity|].
  unfold partial_results_kept. vm_compute. intros [H|[H|H]]; discriminate H.
Qed.




Lemma purchase_without_key_witness :
  let once := purchase Examples.shop Scenarios.unkeyed_pair
                "2024-05-01T10:00:00.000Z" initial in
  let twice := purchase Examples.shop Scenarios.unkeyed_pair
                 "2024-05-01T11:00:00.000Z" (snd once) in
  (exists first second,
     fst once = respond 200 (LabelsBody true [first; second])
     /\ LabelResult.tracking_number first = Some "TRACK0"
     /\ LabelResult.tracking_number second = Some "TRACK1")
  /\ completedOrders (snd twice) = ∅
  /\ transactions (snd twice) = ["rate_a"; "rate_b"; "rate_a"; "rate_b"]
  /\ purchase Examples.shop Scenarios.unkeyed_refused
       "2024-05-01T12:00:00.000Z" initial
     = (respond 400 (ErrorBody "Invalid rate"),
        after_calls ["rate_a"; "rate_bad"] initial).
Proof.
  intros once twice.
  pose proof (purchase_without_key Examples.shop Scenarios.unkeyed_pair
                "2024-05-01T10:00:00.000Z" initial eq_refl)
    as [Hbought _].
  pose proof (purchase_without_key Examples.shop Scenarios.unkeyed_refused
                "2024-05-01T12:00:00.000Z" initial eq_refl)
    as [_ Hrefused].
  set (info := fun n : nat =>
         {| LabelInfo.tracking_number :=
              Some ("TRACK" ++ Number.decimal (N.of_nat n));
            LabelInfo.label_url :=
              Some ("https://labels.example/" ++ Number.decimal (N.of_nat n));
            LabelInfo.tracking_url :=
              Some ("https://track.example/" ++ Number.decimal (N.of_nat n));
            LabelInfo.transaction_id := Some "txn" |}).
  assert (forall w0,
            labels_issued Examples.shop
              (PurchaseRequest.package_rates Scenarios.unkeyed_pair) w0
              [info (List.length (transactions w0));
               info (S (List.length (transactions w0)))]) as Hissued.
  { intros w0. split; [reflexivity|].
    intros [|[|i]] rate labelInfo; simpl; intros [= <-] [= <-].
    - reflexivity.
    - unfold purchaseLabel. simpl. unfold Examples.labels. simpl.
      rewrite length_app. simpl. by rewrite Nat.add_1_r. }
  destruct (Hbought _ (Hissued initial)) as (Hanswer & _ & _ & Hagain).
  destruct (Hagain "2024-05-01T11:00:00.000Z" _ (Hissued (snd once)))
    as (_ & Hcalls & Hledger).
  split_and!.
  - do 2 eexists. split; [exact Hanswer|]. split; reflexivity.
  - exact Hledger.
  - exact Hcalls.
  - apply (Hrefused [Examples.pair 0 "rate_a"] (Examples.pair 1 "rate_bad")
             [Examples.pair 2 "rate_c"] [info 0%nat] "Invalid rate").
    + reflexivity.
    + split; [reflexivity|].
      intros [|i] rate labelInfo; simpl; [|done]. by intros [= <-] [= <-].
    + reflexivity.
Defined.




(** An id with a malformed escape names no key: [decodeURIComponent] throws,
    outside of any [try], and the handler writes no response. *)
Example order_malformed_escape :
  serve Examples.shop (GetOrder "/api/order/%") initial
  = (Throw "URI malformed", initial).
Proof. reflexivity. Qed.

(** ** A purchase among others in flight *)

Section InFlight.
Variable env : Env.t.











End InFlight.



(** * Further properties of the server *)

(** ** The list of quotes *)

Lemma complete_rates_filter n rateMap :
  complete_rates n rateMap
  = (fun entry => quote_of (fst entry) (snd entry))
    <$> filter (fun entry => List.length (Group.package_rates (snd entry)) = n)
               rateMap.
Proof.
  unfold complete_rates.
  assert (forall acc,
    fold_left
      (fun completeRates entry =>
         if (List.length (Group.package_rates (snd entry)) =? n)%nat
         then (completeRates ++ [quote_of (fst entry) (snd entry)])%list
         else completeRates) rateMap acc
    = (acc ++ ((fun entry => quote_of (fst entry) (snd entry))
               <$> filter (fun entry =>
                             List.length (Group.package_rates (snd entry)) = n)
                          rateMap))%list) as H.
  { induction rateMap as [|e m IH]; intros acc; simpl.
    - by rewrite app_nil_r.
    - rewrite IH, filter_cons.
      destruct (Nat.eqb_spec (List.length (Group.package_rates (snd e))) n).
      + rewrite decide_True by done. by rewrite <- app_assoc.
      + by rewrite decide_False by done. }
  by rewrite H.
Qed.

(** X1: the quotes returned by a quote request have pairwise distinct
    keys. *)
Theorem quote_keys_distinct post_shipments packages destination quotes :
  getRatesForPackages post_shipments packages destination = Return quotes ->
  NoDup (map Quote.key quotes).
Proof.
  intros Hget.
  pose proof (getRatesForPackages_returns _ _ _ _ Hget) as Hall.
  rewrite getRatesForPackages_succeed in Hget by done. injection Hget as <-.
  rewrite complete_rates_filter.
  destruct (well_grouped_group_rates
              (shipments_of post_shipments packages destination)) as [Hnd _ _].
  change (map Quote.key) with (fmap (M:=list) Quote.key).
  rewrite <- list_fmap_compose.
  refine (sublist_NoDup _ _ Hnd _).
  apply (fmap_sublist fst), sublist_filter.
Qed.

Lemma quote_keys_distinct_witness :
  exists quotes,
    getRatesForPackages Examples.hyphenated
      [Examples.parcel; Examples.parcel] Examples.home = Return quotes
    /\ NoDup (map Quote.key quotes).
Proof.
  eexists. split; [vm_compute; reflexivity|].
  apply (quote_keys_distinct Examples.hyphenated
           [Examples.parcel; Examples.parcel] Examples.home).
  vm_compute. reflexivity.
Defined.

Lemma Map_alter_new {V : Type} (f : V -> V) key v (m : list (string * V)) :
  Map_get key m = None ->
  Map_alter f key (m ++ [(key, v)]) = (m ++ [(key, f v)])%list.
Proof.
  induction m as [|[k v'] m IH]; simpl.
  - intros _. by rewrite String.eqb_refl.
  - destruct (String.eqb k key); [done|]. intros Hm. by rewrite IH.
Qed.

Lemma add_rate_new index rateMap rate :
  Map_get (rate_key rate) rateMap = None ->
  add_rate index rateMap rate
  = (rateMap ++ [(rate_key rate, group_of (index, rate) [])])%list.
Proof.
  intros Hnew. unfold add_rate, Map_set, Map_has. rewrite Hnew. simpl.
  by rewrite Map_alter_new.
Qed.

Lemma add_rates_new index rates rateMap :
  NoDup (rateMap.*1 ++ map rate_key rates) ->
  fold_left (add_rate index) rates rateMap
  = (rateMap
     ++ map (fun rate => (rate_key rate, group_of (index, rate) [])) rates)%list.
Proof.
  revert rateMap. induction rates as [|r rates IH]; simpl; intros m Hnd.
  - by rewrite app_nil_r.
  - rewrite add_rate_new.
    + rewrite IH; [by rewrite <- app_assoc|].
      rewrite fmap_app. simpl. by rewrite <- app_assoc.
    + apply Map_get_None. apply NoDup_app in Hnd as (_ & Hdisj & _).
      intros Hin. apply (Hdisj _ Hin). by left.
Qed.

(** X2: for a single package whose offers have distinct key strings, the
    quotes are the offers, one quote for each, in the carrier's order; the
    amount of each is [toFixed(2)] of its parsed amount. *)
Theorem single_package_quotes post_shipments pkg destination :
  succeeded (reply_to post_shipments destination 0 pkg) = true ->
  NoDup (map rate_key (offers (reply_to post_shipments destination 0 pkg))) ->
  getRatesForPackages post_shipments [pkg] destination
  = Return (map (offer_quote 0)
                (offers (reply_to post_shipments destination 0 pkg))).
Proof.
  intros Hok Hnd. rewrite getRatesForPackages_succeed.
  2:{ intros [|i] p; simpl; [by intros [= <-] | done]. }
  f_equal. unfold shipments_of, group_rates, add_shipment. simpl.
  rewrite add_rates_new by done. simpl. rewrite complete_rates_filter.
  generalize (offers (reply_to post_shipments destination 0 pkg)).
  intros rates. induction rates as [|r rates IH]; [done|].
  cbn [map]. rewrite filter_cons, decide_True by done.
  rewrite fmap_cons, IH. done.
Qed.

Lemma single_package_quotes_witness :
  getRatesForPackages Examples.carriers [Examples.parcel] Examples.home
  = Return [offer_quote 0 (Examples.rate "CarrierX" "ground" "5.00" "rate_a");
            offer_quote 0 (Examples.rate "CarrierY" "express" "9.99" "rate_b")].
Proof.
  apply (single_package_quotes Examples.carriers Examples.parcel Examples.home).
  - reflexivity.
  - compute_done.
Defined.

Lemma offers_under_all_offers key shipments :
  offers_under key (all_offers shipments)
  = flat_map (fun s => pair (Shipment.packageIndex s)
                       <$> under key (Shipment.rates s)) shipments.
Proof.
  unfold offers_under, all_offers, under.
  induction shipments as [|s ss IH]; simpl; [done|].
  rewrite filter_app, IH. f_equal.
  generalize (Shipment.rates s). intros rates.
  induction rates as [|r rates IHr]; simpl; [done|].
  rewrite !filter_cons. simpl.
  destruct (decide (rate_key r = key)); simpl; by rewrite IHr.
Qed.

Lemma length_flat_map {A B : Type} (f : A -> list B) (l : list A) :
  List.length (flat_map f l) = sum_list (map (fun x => List.length (f x)) l).
Proof.
  induction l as [|x l IH]; simpl; [done|]. by rewrite length_app, IH.
Qed.

Lemma one_offer_each key shipments :
  Forall (fun s => List.length (under key (Shipment.rates s)) = 1%nat)
         shipments ->
  Forall2 (fun s o => fst o = Shipment.packageIndex s
                      /\ snd o ∈ Shipment.rates s
                      /\ rate_key (snd o) = key)
          shipments (offers_under key (all_offers shipments)).
Proof.
  rewrite offers_under_all_offers.
  induction 1 as [|s ss Hs Hss IH]; simpl; [constructor|].
  destruct (under key (Shipment.rates s)) as [|r [|r' l]] eqn:Hunder;
    try discriminate Hs.
  simpl. constructor; [|exact IH]. simpl.
  assert (r ∈ under key (Shipment.rates s)) as Hr by (rewrite Hunder; by left).
  apply list_elem_of_filter in Hr as [? ?]. done.
Qed.

(** The group behind a returned quote. *)
Lemma quote_of_group post_shipments packages destination quotes q :
  getRatesForPackages post_shipments packages destination = Return quotes ->
  q ∈ quotes ->
  exists first rest,
    offers_under (Quote.key q)
      (all_offers (shipments_of post_shipments packages destination))
    = first :: rest
    /\ List.length (first :: rest) = List.length packages
    /\ q = quote_of (Quote.key q) (group_of first rest).
Proof.
  intros Hget Hq.
  pose proof (getRatesForPackages_returns _ _ _ _ Hget) as Hall.
  rewrite getRatesForPackages_succeed in Hget by done. injection Hget as <-.
  apply complete_rates_elem_of in Hq as (k & g & Hin & Hlen & ->).
  destruct (well_grouped_group_rates
              (shipments_of post_shipments packages destination))
    as [Hnd _ _].
  apply Map_get_elem_of in Hin; [|done].
  rewrite (group_rates_get _ k) in Hin. cbn [quote_of Quote.key].
  destruct (offers_under k _) as [|first rest]; [done|].
  injection Hin as <-. exists first, rest. split_and!; [done | | done].
  rewrite <- Hlen. simpl. by rewrite length_map.
Qed.

(** X3: when no package is offered two rates under one key string, the
    references of every returned quote follow the packages: the reference
    at position [i] has the package index [i] and the id and amount of an
    offer made for that package under the quote's key string. *)
Theorem references_follow_packages
    post_shipments packages destination quotes q :
  getRatesForPackages post_shipments packages destination = Return quotes ->
  (forall index pkg, packages !! index = Some pkg ->
     NoDup (map rate_key
                (offers (reply_to post_shipments destination index pkg)))) ->
  q ∈ quotes ->
  forall index pkg, packages !! index = Some pkg ->
    exists rate,
      rate ∈ offers (reply_to post_shipments destination index pkg)
      /\ rate_key rate = Quote.key q
      /\ Quote.package_rates q !! index = Some (reference (index, rate)).
Proof.
  intros Hget Hnd Hq index pkg Hpkg.
  destruct (quote_of_group _ _ _ _ _ Hget Hq)
    as (first & rest & Hunder & Hlen & Hquote).
  set (ss := shipments_of post_shipments packages destination) in *.
  set (key := Quote.key q) in *.
  assert (Forall (fun s => List.length (under key (Shipment.rates s)) = 1%nat) ss)
    as Hone.
  { assert (Forall (fun c => (c <= 1)%nat)
              (map (fun s => List.length (under key (Shipment.rates s))) ss))
      as Hle.
    { apply Forall_fmap, Forall_forall. intros s Hs.
      apply under_at_most_one. revert s Hs.
      by apply (shipments_of_offers post_shipments packages destination
                  (fun rates => NoDup (map rate_key rates))). }
    pose proof (proj1 (sum_of_flags _ Hle)) as Hsum.
    rewrite length_map in Hsum.
    assert (sum_list (map (fun s => List.length (under key (Shipment.rates s))) ss)
            = List.length ss) as Heq.
    { symmetry. transitivity (List.length (offers_under key (all_offers ss))).
      - rewrite Hunder, Hlen. unfold ss, shipments_of. by rewrite length_imap.
      - rewrite offers_under_all_offers, length_flat_map. f_equal.
        apply map_ext. intros s. by rewrite length_fmap. }
    specialize (Hsum Heq). rewrite Forall_fmap in Hsum.
    rewrite Forall_forall in Hsum |- *. intros s Hs.
    specialize (Hsum s Hs). simpl in Hsum.
    pose proof (Forall_forall (fun c => (c <= 1)%nat)
                  (map (fun s => List.length (under key (Shipment.rates s))) ss))
      as [Hall _].
    specialize (Hall Hle (List.length (under key (Shipment.rates s)))).
    assert (List.length (under key (Shipment.rates s)) <= 1)%nat.
    { apply Hall, list_elem_of_fmap. by exists s. }
    lia. }
  pose proof (one_offer_each key ss Hone) as Hall2.
  assert (ss !! index
          = Some (shipment_of index
                    (reply_to post_shipments destination index pkg))) as Hs.
  { unfold ss, shipments_of. by rewrite list_lookup_imap, Hpkg. }
  destruct (Forall2_lookup_l _ _ _ _ _ Hall2 Hs) as ([i rate] & Ho & Hi & Hin & Hk).
  simpl in Hi, Hin, Hk. subst i. exists rate. split_and!; [done | done |].
  rewrite Hquote. cbn [quote_of Quote.package_rates group_of Group.package_rates].
  change (map reference (first :: rest)) with (reference <$> (first :: rest)).
  rewrite <- Hunder, list_lookup_fmap. fold key ss. by rewrite Ho.
Qed.

Lemma references_follow_packages_witness :
  exists q rate,
    getRatesForPackages Examples.carriers
      [Examples.parcel; Examples.parcel] Examples.home = Return [q]
    /\ rate ∈ offers (reply_to Examples.carriers Examples.home 1 Examples.parcel)
    /\ Quote.package_rates q !! 1%nat = Some (reference (1%nat, rate)).
Proof.
  eexists.
  destruct (references_follow_packages Examples.carriers
              [Examples.parcel; Examples.parcel] Examples.home _ _
              eq_refl
              ltac:(intros [|[|i]] pkg; simpl;
                    [intros _; compute_done | intros _; compute_done | done])
              ltac:(by left) 1%nat Examples.parcel eq_refl)
    as (rate & Hin & _ & Href).
  exists rate. split; [reflexivity|]. split; [exact Hin | exact Href].
Defined.

(** X4: the amounts of the offers gathered under a key string are added
    whatever their currencies; the quote states the currency of the first
    offer met. *)
Theorem amounts_added_whatever_currency
    post_shipments packages destination quotes q :
  getRatesForPackages post_shipments packages destination = Return quotes ->
  q ∈ quotes ->
  exists first rest,
    offers_under (Quote.key q)
      (all_offers (shipments_of post_shipments packages destination))
    = first :: rest
    /\ Quote.currency q = Rate.currency (snd first)
    /\ Quote.amount q
       = Number.toFixed
           (float_sum (map (fun o => Rate.amount (snd o)) (first :: rest))) 2.
Proof.
  intros Hget Hq.
  destruct (quote_of_group _ _ _ _ _ Hget Hq)
    as (first & rest & Hunder & _ & Hquote).
  exists first, rest. split; [done|]. by rewrite Hquote.
Qed.

Lemma amounts_added_whatever_currency_witness :
  exists q,
    getRatesForPackages Scenarios.two_currencies
      [Examples.parcel; Examples.parcel] Examples.home = Return [q]
    /\ map (fun o => Rate.currency (snd o))
           (offers_under (Quote.key q)
              (all_offers (shipments_of Scenarios.two_currencies
                             [Examples.parcel; Examples.parcel] Examples.home)))
       = ["USD"; "EUR"]
    /\ Quote.currency q = "USD"
    /\ Quote.amount q = "12.50".
Proof.
  eexists. split; [vm_compute; reflexivity|]. split; [vm_compute; reflexivity|].
  destruct (amounts_added_whatever_currency Scenarios.two_currencies
              [Examples.parcel; Examples.parcel] Examples.home _ _
              eq_refl ltac:(by left))
    as (first & rest & Hunder & Hcurrency & Hamount).
  vm_compute in Hunder. injection Hunder as <- <-.
  split; [exact Hcurrency | exact Hamount].
Defined.

(** X5: when no package is offered two rates under one key string, a
    package whose shipment call succeeds without any offer (no [rates] in
    the reply, an empty list, or a body that is no JSON object) leaves the
    request without quotes: the result is the empty list, not an error. *)
Theorem package_without_offers_empties_quotes
    post_shipments packages destination index pkg :
  all_succeed post_shipments packages destination ->
  (forall i p, packages !! i = Some p ->
     NoDup (map rate_key (offers (reply_to post_shipments destination i p)))) ->
  packages !! index = Some pkg ->
  offers (reply_to post_shipments destination index pkg) = [] ->
  getRatesForPackages post_shipments packages destination = Return [].
Proof.
  intros Hall Hnd Hpkg Hnone. rewrite getRatesForPackages_succeed by done.
  f_equal.
  destruct (complete_rates _ _) as [|q quotes] eqn:Hquotes; [done|]. exfalso.
  assert (exists q', q' ∈ complete_rates (List.length packages)
                          (group_rates (shipments_of post_shipments packages
                                          destination))
                     /\ Quote.key q' = Quote.key q) as Hex.
  { exists q. rewrite Hquotes. split; [by left | done]. }
  apply quoted_iff_references in Hex;
    [| apply well_grouped_group_rates | by destruct packages].
  rewrite <- (length_imap
    (fun i p => shipment_of i (reply_to post_shipments destination i p))
    packages) in Hex.
  fold (shipments_of post_shipments packages destination) in Hex.
  assert (forall s, s ∈ shipments_of post_shipments packages destination ->
            NoDup (map rate_key (Shipment.rates s))) as Hnd'.
  { by apply (shipments_of_offers post_shipments packages destination
                (fun rates => NoDup (map rate_key rates))). }
  pose proof (proj1 (offered_by_all (Quote.key q) _ Hnd') Hex) as Hoffered.
  pose proof (proj1 (shipments_of_offers post_shipments packages destination
                       (fun rates => exists rate,
                          rate ∈ rates /\ rate_key rate = Quote.key q))
                    Hoffered index pkg Hpkg) as (rate & Hin & _).
  rewrite Hnone in Hin. by apply elem_of_nil in Hin.
Qed.

Lemma package_without_offers_empties_quotes_witness :
  getRatesForPackages Scenarios.one_unserved
    [Examples.parcel; Examples.parcel] Examples.home = Return [].
Proof.
  apply (package_without_offers_empties_quotes Scenarios.one_unserved
           [Examples.parcel; Examples.parcel] Examples.home 1 Examples.parcel).
  - by apply two_parcels_succeed.
  - intros [|[|i]] p; simpl; [intros _; compute_done | intros _; compute_done | done].
  - reflexivity.
  - reflexivity.
Defined.

Lemma add_NaN_l x : Number.add Number.NaN x = Number.NaN.
Proof. done. Qed.

Lemma add_NaN_r x : Number.add x Number.NaN = Number.NaN.
Proof. by destruct x. Qed.

Lemma float_sum_NaN amounts amount :
  amount ∈ amounts ->
  Number.parseFloat amount = Number.NaN ->
  float_sum amounts = Number.NaN.
Proof.
  intros Hin Hnan. induction amounts as [|last amounts IH] using rev_ind.
  - by apply elem_of_nil in Hin.
  - rewrite float_sum_snoc.
    apply elem_of_app in Hin as [Hin | ->%list_elem_of_singleton].
    + by rewrite IH.
    + rewrite Hnan. apply add_NaN_r.
Qed.

(** X6: one amount that is no number spoils the total. When an offer
    gathered in a returned quote has an amount that [parseFloat] does not
    read as a number (an empty string, a text, an amount that starts with a
    currency sign), the amount of the quote is the string "NaN". *)
Theorem unreadable_amount_makes_NaN
    (post_shipments : nat -> ShipmentRequest.t -> nat * Reply ShipmentData.t)
    packages destination quotes q amount :
  getRatesForPackages post_shipments packages destination = Return quotes ->
  q ∈ quotes ->
  amount ∈ map PackageRate.amount (Quote.package_rates q) ->
  Number.parseFloat amount = Number.NaN ->
  Quote.amount q = "NaN".
Proof.
  intros Hquotes Hq Hin Hnan.
  rewrite (quote_amount_is_float_sum post_shipments packages destination
             quotes q Hquotes Hq).
  by rewrite (float_sum_NaN _ amount Hin Hnan).
Qed.

Lemma unreadable_amount_makes_NaN_witness :
  exists q,
    getRatesForPackages Scenarios.with_currency_sign [Examples.parcel]
      Examples.home = Return [q]
    /\ Quote.amount q = "NaN".
Proof.
  eexists. split; [vm_compute; reflexivity|].
  eapply (unreadable_amount_makes_NaN Scenarios.with_currency_sign
            [Examples.parcel] Examples.home _ _ "$5.00").
  - vm_compute. reflexivity.
  - apply list_elem_of_singleton. reflexivity.
  - apply list_elem_of_singleton. reflexivity.
  - vm_compute. reflexivity.
Defined.

(** ** The purchase of labels *)

Lemma purchase_loop_extends env packageRates results w labels w' :
  purchase_loop env packageRates results w = (Return labels, w') ->
  exists more, labels = (results ++ more)%list.
Proof.
  revert results w.
  induction packageRates as [|rate rest IH]; cbn [purchase_loop];
    intros results w.
  - intros [= <- _]. exists []. by rewrite app_nil_r.
  - destruct (purchaseLabel env (PackageRate.rate_id rate) w)
      as [[info|m] w1]; [|intros [=]].
    intros [more ->]%IH. eexists. by rewrite <- app_assoc.
Qed.

Lemma purchase_loop_labels env packageRates results w labels w' :
  purchase_loop env packageRates results w = (Return labels, w') ->
  w' = after_calls (map PackageRate.rate_id packageRates) w
  /\ forall i rate, packageRates !! i = Some rate ->
       exists labelInfo,
         fst (purchaseLabel env (PackageRate.rate_id rate)
                (after_calls (map PackageRate.rate_id (take i packageRates)) w))
         = Return labelInfo
         /\ labels !! (List.length results + i)%nat
            = Some (label_result rate labelInfo).
Proof.
  revert results w.
  induction packageRates as [|rate rest IH]; cbn [purchase_loop];
    intros results w.
  - intros [= <- <-]. split; [done|]. intros i r Hr. done.
  - destruct (purchaseLabel env (PackageRate.rate_id rate) w)
      as [[labelInfo|message] w1] eqn:Hcall; [|intros [=]].
    pose proof (purchaseLabel_world env (PackageRate.rate_id rate) w) as Hw.
    rewrite Hcall in Hw. simpl in Hw. subst w1.
    intros Hloop. destruct (IH _ _ Hloop) as [-> Hrest]. split; [done|].
    intros [|i] r Hr; simpl in Hr.
    + injection Hr as <-. exists labelInfo. unfold after_calls at 1.
      cbn [take map fold_left]. rewrite Hcall.
      split; [done|]. rewrite Nat.add_0_r.
      destruct (purchase_loop_returns env rest _ _ _ _ Hloop)
        as (_ & _ & _ & Hlen & _).
      destruct (purchase_loop_extends env _ _ _ _ _ Hloop) as [more ->].
      rewrite <- app_assoc. by rewrite lookup_app_r, Nat.sub_diag by lia.
    + destruct (Hrest i r Hr) as (info & Hinfo & Hlabel).
      exists info. split; [exact Hinfo|].
      rewrite length_app in Hlabel. simpl in Hlabel.
      by replace (List.length results + S i)%nat
        with (List.length results + 1 + i)%nat by lia.
Qed.

(** X7: when [purchaseAllLabels] returns, it has made one call for each
    pair, in the order of the pairs, and nothing else to the state; it
    returns one label for each pair, in that order, and the label at
    position [i] carries the package index of the pair at [i] and the
    tracking number and URLs of the reply to the call for that pair, which
    was made after the calls for the pairs before it. *)
Theorem all_labels_bought env packageRates w labels w' :
  purchaseAllLabels env packageRates w = (Return labels, w') ->
  w' = after_calls (map PackageRate.rate_id packageRates) w
  /\ transactions w'
     = (transactions w ++ map PackageRate.rate_id packageRates)%list
  /\ List.length labels = List.length packageRates
  /\ forall i rate, packageRates !! i = Some rate ->
       exists labelInfo,
         fst (purchaseLabel env (PackageRate.rate_id rate)
                (after_calls (map PackageRate.rate_id (take i packageRates)) w))
         = Return labelInfo
         /\ labels !! i = Some (label_result rate labelInfo).
Proof.
  unfold purchaseAllLabels. intros Hloop.
  destruct (purchase_loop_labels env _ _ _ _ _ Hloop) as [-> Hlabels].
  destruct (purchase_loop_returns env _ _ _ _ _ Hloop)
    as (_ & _ & _ & Hlen & _).
  split_and!; [done | apply after_calls_world | done | exact Hlabels].
Qed.

Lemma all_labels_bought_witness :
  exists labels w',
    purchaseAllLabels Examples.shop
      [Examples.pair 0 "rate_a"; Examples.pair 1 "rate_b"] initial
    = (Return labels, w')
    /\ transactions w' = ["rate_a"; "rate_b"]
    /\ map LabelResult.tracking_number labels = [Some "TRACK0"; Some "TRACK1"].
Proof.
  do 2 eexists. split; [vm_compute; reflexivity|].
  destruct (all_labels_bought Examples.shop
              [Examples.pair 0 "rate_a"; Examples.pair 1 "rate_b"] initial
              _ _ eq_refl) as (_ & Hcalls & _ & _).
  split; [exact Hcalls | reflexivity].
Defined.

Lemma purchase_loop_unparsed env packageRates results w :
  (forall history request, exists status raw,
     Env.post_transactions env history request = Response status (Text raw)
     /\ not_success status = false) ->
  purchase_loop env packageRates results w
  = (Return (results ++ map blank_label packageRates)%list,
     after_calls (map PackageRate.rate_id packageRates) w).
Proof.
  intros Hreply. revert results w.
  induction packageRates as [|rate rest IH]; cbn [purchase_loop];
    intros results w.
  - by rewrite app_nil_r.
  - unfold purchaseLabel.
    destruct (Hreply (transactions w)
                {| TransactionRequest.rate := PackageRate.rate_id rate;
                   TransactionRequest.label_file_type := "PDF";
                   TransactionRequest.async := false |})
      as (status & raw & -> & ->).
    cbn [field]. rewrite IH. cbn [map]. by rewrite <- app_assoc.
Qed.

(** X8: a reply of the label service with status 200 or 201 whose body is
    no JSON counts as a purchased label. When every reply is of this kind,
    [purchaseAllLabels] returns one label per pair with its package index
    and neither tracking number nor URLs, after one call per pair; the
    purchase request is answered 200 with these labels, and a keyed order
    is stored with them. *)
Theorem unparsed_replies_count_as_labels env req now w :
  (forall history request, exists status raw,
     Env.post_transactions env history request = Response status (Text raw)
     /\ not_success status = false) ->
  already_completed (PurchaseRequest.pkgId req) w = false ->
  let labels := map blank_label (PurchaseRequest.package_rates req) in
  purchaseAllLabels env (PurchaseRequest.package_rates req) w
  = (Return labels,
     after_calls (map PackageRate.rate_id (PurchaseRequest.package_rates req)) w)
  /\ fst (purchase env req now w) = respond 200 (LabelsBody true labels)
  /\ forall key,
       idempotency_key (PurchaseRequest.pkgId req) = Some key ->
       completedOrders (snd (purchase env req now w)) !! key
       = Some (orderData (PurchaseRequest.selectedRate req) labels now).
Proof.
  intros Hreply Hfresh labels.
  assert (purchaseAllLabels env (PurchaseRequest.package_rates req) w
          = (Return labels,
             after_calls
               (map PackageRate.rate_id (PurchaseRequest.package_rates req)) w))
    as Hall.
  { unfold purchaseAllLabels. by rewrite purchase_loop_unparsed. }
  split; [exact Hall|].
  unfold purchase. rewrite Hfresh, Hall.
  destruct (complete_purchase_spec env req labels now
              (after_calls
                 (map PackageRate.rate_id (PurchaseRequest.package_rates req))
                 w))
    as (Hresponse & _ & Hledger).
  split; [exact Hresponse|].
  intros key Hkey. rewrite Hledger, Hkey. apply lookup_insert_eq.
Qed.

Lemma unparsed_replies_count_as_labels_witness :
  fst (purchase Scenarios.shop_behind_gateway Examples.order_1
         "2024-05-01T10:00:00.000Z" initial)
  = respond 200
      (LabelsBody true
         [blank_label (Examples.pair 0 "rate_a");
          blank_label (Examples.pair 1 "rate_b")]).
Proof.
  refine (proj1 (proj2 (unparsed_replies_count_as_labels
                          Scenarios.shop_behind_gateway Examples.order_1
                          "2024-05-01T10:00:00.000Z" initial _ _))).
  - intros history request. exists 200%Z, "<html>OK</html>". by split.
  - reflexivity.
Defined.

Lemma or_else_not_empty value fallback :
  fallback <> "" -> or_else value fallback <> "".
Proof. by destruct value as [[|c s]|]. Qed.

Lemma purchaseLabel_message env rateId w message w' :
  (forall history request text,
     Env.post_transactions env history request = NetworkError text ->
     text <> "") ->
  purchaseLabel env rateId w = (Throw message, w') ->
  message <> "".
Proof.
  intros Hnet. unfold purchaseLabel.
  destruct (Env.post_transactions env (transactions w) _)
    as [text|status data] eqn:Hreply.
  - intros [= <- _]. by eapply Hnet.
  - destruct (not_success status).
    + intros Hthrow.
      assert (message
              = or_else (field TransactionData.detail data)
                  (or_else (Some (Env.JSON_stringify env data))
                     "Failed to purchase label")) as ->
        by congruence.
      by do 2 apply or_else_not_empty.
    + destruct (field TransactionData.status data) as [state|]; [|intros [=]].
      repeat (destruct state as [|[[] [] [] [] [] [] [] []] state];
              try (simpl; intros [=]; fail)).
      intros Hthrow.
      assert (message
              = or_else
                  (Some (join ", "
                           (default [] (field TransactionData.messages data))))
                  "Label purchase failed") as ->
        by congruence.
      by apply or_else_not_empty.
Qed.

(** X9: an error answer never comes with an empty text. When the failures
    of the connections to the carrier carry a message, every 400 answer of
    [POST /api/purchase] and of [POST /api/rates] has a non-empty [error]:
    a carrier reply without a usable [detail], text or [messages] falls
    back to a fixed message. *)
Theorem refusals_carry_a_message env :
  (forall history request text,
     Env.post_transactions env history request = NetworkError text ->
     text <> "") ->
  (forall index request settled text,
     Env.post_shipments env index request = (settled, NetworkError text) ->
     text <> "") ->
  (forall req now w message,
     fst (purchase env req now w) = respond 400 (ErrorBody message) ->
     message <> "")
  /\ (forall packages destination message,
        rates env packages destination = respond 400 (ErrorBody message) ->
        message <> "").
Proof.
  intros Hlabels Hrates. split.
  - intros req now w message.
    destruct (purchase_cases env req now w)
      as [[_ ->] | [(_ & m & w1 & Hthrow & ->) | (_ & ls & w1 & _ & ->)]].
    + by intros [= <-].
    + intros [= <-]. unfold purchaseAllLabels in Hthrow.
      destruct (purchase_loop_throws env _ _ _ _ _ Hthrow)
        as (before & rate & after & labels & w2 & _ & _ & Hcall).
      by eapply purchaseLabel_message.
    + destruct (complete_purchase_spec env req ls now w1) as (-> & _).
      intros [=].
  - intros packages destination message. unfold rates, getRatesForPackages.
    unfold Promise_all.
    destruct (first_rejection _) as [[t m]|] eqn:Hfirst; [|intros [=]].
    intros [= <-].
    apply first_rejection_Some in Hfirst as [Hin _].
    apply elem_of_lookup_imap in Hin as (index & pkg & Hcall & _).
    unfold create_shipment in Hcall.
    destruct (Env.post_shipments env index _)
      as [settled [text|status data]] eqn:Hreply.
    + injection Hcall as _ <-. by eapply Hrates.
    + destruct (not_success status); [|by injection Hcall].
      assert (m = or_else (field ShipmentData.detail data)
                    ("Failed to create shipment for package "
                     ++ Number.decimal (N.of_nat (index + 1)))) as ->
        by congruence.
      by apply or_else_not_empty.
Qed.

Lemma refusals_carry_a_message_witness :
  rates Examples.shop_down [Examples.parcel; Examples.parcel] Examples.home
  = respond 400 (ErrorBody "Failed to create shipment for package 2")
  /\ "Failed to create shipment for package 2" <> "".
Proof.
  split; [vm_compute; reflexivity|].
  refine (proj2 (refusals_carry_a_message Examples.shop_down _ _)
            [Examples.parcel; Examples.parcel] Examples.home _ _).
  - intros history request text. unfold Examples.shop_down, Examples.labels.
    simpl. by destruct (String.eqb _ _).
  - intros [|[|index]] request settled text; by simpl.
  - vm_compute. reflexivity.
Defined.

(** X10: a purchase request with a key and an empty [package_rates] buys
    nothing and is answered 200 with no labels, yet it takes the key: an
    order without labels is stored, and every later purchase request with
    this key is refused as already completed without a call to the
    carrier. *)
Theorem empty_purchase_takes_the_key env req now w key :
  PurchaseRequest.package_rates req = [] ->
  idempotency_key (PurchaseRequest.pkgId req) = Some key ->
  completedOrders w !! key = None ->
  let after := snd (purchase env req now w) in
  fst (purchase env req now w) = respond 200 (LabelsBody true [])
  /\ transactions after = transactions w
  /\ completedOrders after !! key
     = Some (orderData (PurchaseRequest.selectedRate req) [] now)
  /\ forall later now',
       idempotency_key (PurchaseRequest.pkgId later) = Some key ->
       purchase env later now' after
       = (respond 400 (ErrorBody "This order has already been completed"),
          after).
Proof.
  intros Hnone Hkey Hfresh after.
  assert (already_completed (PurchaseRequest.pkgId req) w = false) as Hnot.
  { unfold already_completed, has_order. by rewrite Hkey, Hfresh. }
  assert (purchase env req now w = complete_purchase env req [] now w) as Hrun.
  { unfold purchase. by rewrite Hnot, Hnone. }
  destruct (complete_purchase_spec env req [] now w)
    as (Hresponse & Hcalls & Hledger).
  rewrite Hkey in Hledger.
  assert (completedOrders after !! key
          = Some (orderData (PurchaseRequest.selectedRate req) [] now))
    as Hstored.
  { subst after. rewrite Hrun, Hledger. apply lookup_insert_eq. }
  subst after. rewrite Hrun in *.
  split_and!; try done.
  intros later now' Hlater. unfold purchase.
  assert (already_completed (PurchaseRequest.pkgId later)
            (snd (complete_purchase env req [] now w)) = true) as ->; [|done].
  apply already_completed_spec. exists key. by rewrite Hstored.
Qed.

Lemma empty_purchase_takes_the_key_witness :
  let after :=
    snd (purchase Examples.shop (Examples.order_of (Some "order-1") [])
           "2024-05-01T10:00:00.000Z" initial) in
  purchase Examples.shop Examples.order_1 "2024-05-01T10:05:00.000Z" after
  = (respond 400 (ErrorBody "This order has already been completed"), after).
Proof.
  intros after.
  apply (empty_purchase_takes_the_key Examples.shop
           (Examples.order_of (Some "order-1") [])
           "2024-05-01T10:00:00.000Z" initial "order-1");
    reflexivity.
Defined.

(** X11: what a keyed purchase answers can be read back. After a purchase
    under a key without a record whose labels are all bought, [GET
    /api/order/<id>] for an id that decodes to the key answers 200 with
    [exists: true] and the order made of the selected rate and of exactly
    the labels that the purchase returned, also after any further requests
    were handled. *)
Theorem bought_order_is_read_back env req now w key labels w1 requests url :
  idempotency_key (PurchaseRequest.pkgId req) = Some key ->
  completedOrders w !! key = None ->
  purchaseAllLabels env (PurchaseRequest.package_rates req) w
  = (Return labels, w1) ->
  Env.decodeURIComponent env (substring 11 (String.length url - 11) url)
  = Return key ->
  fst (purchase env req now w) = respond 200 (LabelsBody true labels)
  /\ order env url (serve_all env requests (snd (purchase env req now w)))
     = Return (respond 200
                 (OrderBody true
                    (Some (orderData (PurchaseRequest.selectedRate req)
                             labels now)))).
Proof.
  intros Hkey Hfresh Hall Hurl.
  assert (already_completed (PurchaseRequest.pkgId req) w = false) as Hnot.
  { unfold already_completed, has_order. by rewrite Hkey, Hfresh. }
  assert (purchase env req now w = complete_purchase env req labels now w1)
    as ->.
  { unfold purchase. by rewrite Hnot, Hall. }
  destruct (complete_purchase_spec env req labels now w1)
    as (Hresponse & _ & Hledger).
  split; [exact Hresponse|].
  unfold order, lookup_order. rewrite Hurl.
  erewrite serve_all_keeps_records; [done|].
  rewrite Hledger, Hkey. apply lookup_insert_eq.
Qed.

Lemma bought_order_is_read_back_witness :
  exists labels,
    fst (purchase Examples.shop Examples.order_1 "2024-05-01T10:00:00.000Z"
           initial)
    = respond 200 (LabelsBody true labels)
    /\ order Examples.shop "/api/order/order%2D1"
         (serve_all Examples.shop
            [PostPurchase Examples.order_unkeyed "2024-05-01T10:01:00.000Z";
             PostPurchase Examples.order_1 "2024-05-01T10:02:00.000Z"]
            (snd (purchase Examples.shop Examples.order_1
                    "2024-05-01T10:00:00.000Z" initial)))
       = Return (respond 200
                   (OrderBody true
                      (Some (orderData None labels
                               "2024-05-01T10:00:00.000Z")))).
Proof.
  eexists.
  eapply (bought_order_is_read_back Examples.shop Examples.order_1
           "2024-05-01T10:00:00.000Z" initial "order-1").
  - reflexivity.
  - reflexivity.
  - vm_compute. reflexivity.
  - vm_compute. reflexivity.
Defined.

(** ** Printing *)

Lemma after_jobs_snoc jobs job w :
  after_jobs (jobs ++ [job]) w = record_printjob job (after_jobs jobs w).
Proof. unfold after_jobs. by rewrite fold_left_app. Qed.

Lemma after_jobs_cons jobs job w :
  after_jobs (job :: jobs) w = after_jobs jobs (record_printjob job w).
Proof. done. Qed.

Lemma after_jobs_world jobs w :
  completedOrders (after_jobs jobs w) = completedOrders w
  /\ transactions (after_jobs jobs w) = transactions w
  /\ printjobs (after_jobs jobs w) = (printjobs w ++ jobs)%list.
Proof.
  unfold after_jobs. revert w.
  induction jobs as [|job jobs IH]; simpl; intros w.
  - by rewrite app_nil_r.
  - destruct (IH (record_printjob job w)) as (-> & -> & ->). simpl.
    by rewrite <- app_assoc.
Qed.

Lemma print_loop_step env customerName i url rest w :
  print_loop env customerName i (url :: rest) w
  = if reached env (printjobs w) (label_job env customerName i url)
    then print_loop env customerName (S i) rest
           (record_printjob (label_job env customerName i url) w)
    else (false, record_printjob (label_job env customerName i url) w).
Proof.
  cbn [print_loop]. unfold reached, label_job.
  by destruct (Env.post_printjobs env (printjobs w) _).
Qed.

Lemma print_loop_reached env customerName labelUrls i w :
  (forall k url, labelUrls !! k = Some url ->
     reached env
       (printjobs w
        ++ imap (fun k => label_job env customerName (i + k))
             (take k labelUrls))
       (label_job env customerName (i + k) url) = true) ->
  print_loop env customerName i labelUrls w
  = (true,
     after_jobs (imap (fun k => label_job env customerName (i + k)) labelUrls)
       w).
Proof.
  revert i w. induction labelUrls as [|url rest IH]; intros i w Hall.
  - done.
  - rewrite print_loop_step.
    pose proof (Hall 0%nat url eq_refl) as Hfirst.
    cbn [take imap] in Hfirst. rewrite app_nil_r, Nat.add_0_r in Hfirst.
    rewrite Hfirst, imap_cons, after_jobs_cons, Nat.add_0_r.
    rewrite IH.
    + f_equal. f_equal. apply imap_ext. intros k u _. simpl.
      f_equal. lia.
    + intros k u Hk. specialize (Hall (S k) u Hk).
      cbn [take] in Hall. rewrite imap_cons, Nat.add_0_r in Hall.
      cbn [printjobs record_printjob]. rewrite <- app_assoc. cbn [app].
      replace (S i + k)%nat with (i + S k)%nat by lia.
      erewrite imap_ext; [exact Hall|].
      intros j v _. simpl. f_equal. lia.
Qed.

Lemma print_loop_app env customerName before rest i w w1 :
  print_loop env customerName i before w = (true, w1) ->
  print_loop env customerName i (before ++ rest) w
  = print_loop env customerName (i + List.length before) rest w1.
Proof.
  revert i w. induction before as [|url before IH]; intros i w.
  - intros [= <-]. simpl. by rewrite Nat.add_0_r.
  - cbn [app]. rewrite !print_loop_step.
    destruct (reached env _ _); [|intros [=]].
    intros Hrest. rewrite (IH _ _ Hrest). simpl. f_equal. lia.
Qed.

(** X12: with the printer configured, [printLabels] posts one job for each
    label URL, in the order of the URLs, as long as the printer service is
    reached: the job for the URL at index [i] has the title "Shipping Label
    i+1 - customer", the content type [pdf_uri] and the URL as content.
    When it is reached for all of them, [printLabels] returns [true],
    whatever the statuses of the replies. *)
Theorem labels_printed_in_order env labelUrls customerName w :
  printer_not_configured env = false ->
  (forall k url, labelUrls !! k = Some url ->
     reached env
       (printjobs w ++ imap (label_job env customerName) (take k labelUrls))
       (label_job env customerName k url) = true) ->
  printLabels env labelUrls customerName w
  = (true, after_jobs (imap (label_job env customerName) labelUrls) w).
Proof.
  intros Hconfigured Hall. unfold printLabels. rewrite Hconfigured.
  by apply (print_loop_reached env customerName labelUrls 0%nat w).
Qed.

Lemma labels_printed_in_order_witness :
  printLabels Scenarios.shop_without_key
    [Some "https://labels.example/0"; None] "Ada" initial
  = (true,
     after_jobs
       [label_job Scenarios.shop_without_key "Ada" 0
          (Some "https://labels.example/0");
        label_job Scenarios.shop_without_key "Ada" 1 None]
       initial).
Proof.
  apply (labels_printed_in_order Scenarios.shop_without_key
           [Some "https://labels.example/0"; None] "Ada" initial).
  - reflexivity.
  - intros k url _. reflexivity.
Defined.

(** X13: [printLabels] stops at the first job for which the printer
    service is not reached: the jobs for the URLs before it and this job
    are the only ones posted, no job is posted for a URL after it, and
    [printLabels] returns [false]. *)
Theorem printing_stops_at_failed_connection env before url after
    customerName w :
  printer_not_configured env = false ->
  (forall k u, before !! k = Some u ->
     reached env
       (printjobs w ++ imap (label_job env customerName) (take k before))
       (label_job env customerName k u) = true) ->
  reached env
    (printjobs w ++ imap (label_job env customerName) before)
    (label_job env customerName (List.length before) url) = false ->
  printLabels env (before ++ url :: after) customerName w
  = (false,
     after_jobs (imap (label_job env customerName) (before ++ [url])) w).
Proof.
  intros Hconfigured Hbefore Hurl. unfold printLabels. rewrite Hconfigured.
  assert (print_loop env customerName 0 before w
          = (true, after_jobs (imap (label_job env customerName) before) w))
    as Hloop
    by exact (print_loop_reached env customerName before 0%nat w Hbefore).
  rewrite (print_loop_app _ _ _ _ _ _ _ Hloop). cbn [Nat.add].
  rewrite print_loop_step.
  destruct (after_jobs_world (imap (label_job env customerName) before) w)
    as (_ & _ & ->).
  rewrite Hurl, imap_app. cbn [imap]. rewrite after_jobs_snoc.
  by rewrite Nat.add_0_r.
Qed.

Lemma printing_stops_at_failed_connection_witness :
  printLabels Scenarios.shop_printer_drops
    ([Some "https://labels.example/0"]
     ++ Some "https://labels.example/1" :: [Some "https://labels.example/2"])%list
    "Ada" initial
  = (false,
     after_jobs
       (imap (label_job Scenarios.shop_printer_drops "Ada")
          ([Some "https://labels.example/0"]
           ++ [Some "https://labels.example/1"])%list)
       initial).
Proof.
  apply (printing_stops_at_failed_connection Scenarios.shop_printer_drops
           [Some "https://labels.example/0"]
           (Some "https://labels.example/1")
           [Some "https://labels.example/2"] "Ada" initial).
  - reflexivity.
  - intros [|k] u; [reflexivity | intros [=]].
  - reflexivity.
Defined.

Lemma print_loop_posts env customerName i labelUrls w :
  exists more,
    printjobs (snd (print_loop env customerName i labelUrls w))
    = (printjobs w ++ more)%list
    /\ (labelUrls <> [] -> more <> []).
Proof.
  revert i w. induction labelUrls as [|url rest IH]; intros i w.
  - exists []. simpl. by rewrite app_nil_r.
  - rewrite print_loop_step. destruct (reached env _ _).
    + destruct (IH (S i) (record_printjob (label_job env customerName i url) w))
        as (more & -> & _).
      exists (label_job env customerName i url :: more). simpl.
      by rewrite <- app_assoc.
    + by exists [label_job env customerName i url].
Qed.

(** X14: printing is skipped exactly when the API key is the placeholder
    [YOUR_PRINTNODE_API_KEY] or the printer id is 0. For at least one
    label URL, [printLabels] posts no job if and only if one of the two
    holds; with any other key, the empty one of an unset environment
    variable included, a job is posted. *)
Theorem print_skipped_iff_placeholder env labelUrls customerName w :
  labelUrls <> [] ->
  printjobs (snd (printLabels env labelUrls customerName w)) = printjobs w
  <-> Env.PRINTNODE_API_KEY env = "YOUR_PRINTNODE_API_KEY"
      \/ Env.PRINTNODE_PRINTER_ID env = 0%Z.
Proof.
  intros Hsome. unfold printLabels, printer_not_configured.
  destruct (String.eqb_spec (Env.PRINTNODE_API_KEY env)
              "YOUR_PRINTNODE_API_KEY") as [Hkey|Hkey];
    [by split; [left|]|].
  destruct (Z.eqb_spec (Env.PRINTNODE_PRINTER_ID env) 0) as [Hid|Hid];
    [by split; [right|]|].
  cbn [orb].
  destruct (print_loop_posts env customerName 0 labelUrls w)
    as (more & -> & Hmore).
  split; [|by intros [?|?]].
  intros Hsame. exfalso. apply (Hmore Hsome).
  apply (app_inv_head (printjobs w)). by rewrite app_nil_r.
Qed.

Lemma print_skipped_iff_placeholder_witness :
  printjobs
    (snd (printLabels Scenarios.shop_without_key
            [Some "https://labels.example/0"] "Ada" initial))
  <> printjobs initial.
Proof.
  intros Hsame.
  apply (print_skipped_iff_placeholder Scenarios.shop_without_key
           [Some "https://labels.example/0"] "Ada" initial) in Hsame;
    [|done].
  by destruct Hsame.
Defined.

(** X15: nothing is printed for a purchase that is not answered 200: when
    [POST /api/purchase] answers another status, no print job was posted
    and no order stored. *)
Theorem nothing_printed_on_refusal env req now w :
  statusCode (fst (purchase env req now w)) <> 200%Z ->
  printjobs (snd (purchase env req now w)) = printjobs w
  /\ completedOrders (snd (purchase env req now w)) = completedOrders w.
Proof.
  destruct (purchase_cases env req now w)
    as [[_ ->] | [(_ & m & w1 & Hthrow & ->) | (_ & ls & w1 & _ & ->)]].
  - done.
  - intros _. simpl.
    destruct (purchaseAllLabels_frame env (PurchaseRequest.package_rates req) w)
      as [Hledger Hjobs].
    rewrite Hthrow in Hledger, Hjobs. by simpl in *.
  - destruct (complete_purchase_spec env req ls now w1) as (-> & _).
    by intros [].
Qed.

Lemma nothing_printed_on_refusal_witness :
  printjobs
    (snd (purchase Examples.shop Examples.order_refused
            "2024-05-01T10:00:00.000Z" initial)) = []
  /\ completedOrders
       (snd (purchase Examples.shop Examples.order_refused
               "2024-05-01T10:00:00.000Z" initial)) = ∅.
Proof.
  apply (nothing_printed_on_refusal Examples.shop Examples.order_refused
           "2024-05-01T10:00:00.000Z" initial).
  vm_compute. discriminate.
Defined.

(** ** What the server never takes back *)

Lemma grows_refl w : grows w w.
Proof. by split_and!. Qed.

Lemma grows_trans w1 w2 w3 : grows w1 w2 -> grows w2 w3 -> grows w1 w3.
Proof.
  intros (Ht & Hj & Hk) (Ht' & Hj' & Hk'). split_and!.
  - by etrans.
  - by etrans.
  - auto.
Qed.

Lemma grows_record_transaction rateId w :
  grows w (record_transaction rateId w).
Proof. split_and!; simpl; [by apply prefix_app_r | done | done]. Qed.

Lemma grows_record_printjob job w : grows w (record_printjob job w).
Proof. split_and!; simpl; [done | by apply prefix_app_r | done]. Qed.

Lemma grows_store_order key record w : grows w (store_order key record w).
Proof.
  split_and!; simpl; [done | done |].
  intros k Hk. apply lookup_insert_is_Some.
  destruct (decide (key = k)); auto.
Qed.

Lemma grows_purchaseLabel env rateId w :
  grows w (snd (purchaseLabel env rateId w)).
Proof. rewrite purchaseLabel_world. by apply grows_record_transaction. Qed.

Lemma grows_purchase_loop env packageRates results w :
  grows w (snd (purchase_loop env packageRates results w)).
Proof.
  revert results w.
  induction packageRates as [|rate rest IH]; cbn [purchase_loop];
    intros results w.
  - apply grows_refl.
  - pose proof (grows_purchaseLabel env (PackageRate.rate_id rate) w) as Hcall.
    destruct (purchaseLabel env (PackageRate.rate_id rate) w)
      as [[labelInfo|message] w1]; simpl in Hcall.
    + eapply grows_trans; [exact Hcall | apply IH].
    + exact Hcall.
Qed.

Lemma grows_print_loop env customerName i labelUrls w :
  grows w (snd (print_loop env customerName i labelUrls w)).
Proof.
  destruct (print_loop_frame env customerName i labelUrls w) as [Hk Ht].
  destruct (print_loop_posts env customerName i labelUrls w)
    as (more & Hj & _).
  split_and!.
  - by rewrite Ht.
  - rewrite Hj. by apply prefix_app_r.
  - intros key. by rewrite Hk.
Qed.

Lemma grows_printLabels env labelUrls customerName w :
  grows w (snd (printLabels env labelUrls customerName w)).
Proof.
  unfold printLabels. destruct (printer_not_configured env).
  - apply grows_refl.
  - apply grows_print_loop.
Qed.

Lemma grows_printPackingSlip env destination packages labelResults
    selectedRate w :
  grows w
    (snd (printPackingSlip env destination packages labelResults
            selectedRate w)).
Proof.
  unfold printPackingSlip. destruct (printer_not_configured env).
  - apply grows_refl.
  - destruct (Env.packing_slip_base64 env _ _ _ _) as [base64Html|message].
    + destruct (Env.post_printjobs env _ _); apply grows_record_printjob.
    + apply grows_refl.
Qed.

Lemma grows_complete_purchase_body env body labelResults now w :
  grows w (snd (complete_purchase_body env body labelResults now w)).
Proof.
  unfold complete_purchase_body.
  set (labelUrls := map LabelResult.label_url labelResults).
  set (customerName := Destination.name (PurchaseBody.destination body)).
  assert (grows w
            (snd (if printer_not_configured env then (false, w)
                  else print_loop env customerName 0 (take 1 labelUrls) w)))
    as Hfirst.
  { destruct (printer_not_configured env);
      [apply grows_refl | apply grows_print_loop]. }
  destruct (if printer_not_configured env then _ else _) as [reached w1].
  cbn [snd] in Hfirst.
  assert (grows w1
            (snd (match packages_listed (PurchaseBody.packages body) with
                  | Some packages =>
                      printPackingSlip env (PurchaseBody.destination body)
                        packages labelResults
                        (PurchaseBody.selectedRate body) w1
                  | None => (false, w1)
                  end))) as Hslip.
  { destruct (packages_listed _);
      [apply grows_printPackingSlip | apply grows_refl]. }
  destruct (match packages_listed (PurchaseBody.packages body) with
            | Some _ => _ | None => _ end) as [slipped w2].
  cbn [snd] in Hslip.
  assert (grows w2
            (if reached
             then snd (print_loop env customerName 1 (drop 1 labelUrls) w2)
             else w2)) as Hrest.
  { destruct reached; [apply grows_print_loop | apply grows_refl]. }
  eapply grows_trans; [exact Hfirst|].
  eapply grows_trans; [exact Hslip|].
  destruct (logOrderDetails _ _ _) as [[]|message]; cbn [snd];
    [|exact Hrest].
  eapply grows_trans; [exact Hrest|].
  destruct (idempotency_key (PurchaseBody.pkgId body)).
  - apply grows_store_order.
  - apply grows_refl.
Qed.

Lemma grows_complete_purchase env req labelResults now w :
  grows w (snd (complete_purchase env req labelResults now w)).
Proof. apply grows_complete_purchase_body. Qed.

Lemma grows_advance env req packageRates results now w :
  grows w (snd (advance env req packageRates results now w)).
Proof.
  destruct packageRates as [|rate rest]; cbn [advance].
  - pose proof (grows_complete_purchase env req results now w) as Hdone.
    by destruct (complete_purchase env req results now w).
  - pose proof (grows_purchaseLabel env (PackageRate.rate_id rate) w) as Hcall.
    by destruct (purchaseLabel env (PackageRate.rate_id rate) w).
Qed.

Lemma grows_arrive env req now w : grows w (snd (arrive env req now w)).
Proof.
  unfold arrive. destruct (already_completed _ w).
  - apply grows_refl.
  - apply grows_advance.
Qed.

Lemma grows_resume env p now w : grows w (snd (resume env p now w)).
Proof.
  unfold resume. destruct (settling p).
  - apply grows_advance.
  - apply grows_refl.
Qed.

Lemma grows_step env s e : grows (snd s) (snd (step env s e)).
Proof.
  destruct s as [pool w], e as [req now|i now]; cbn [step snd].
  - pose proof (grows_arrive env req now w) as Hgrows.
    by destruct (arrive env req now w) as [[response|p] w'].
  - destruct (pool !! i) as [p|]; [|apply grows_refl].
    pose proof (grows_resume env p now w) as Hgrows.
    by destruct (resume env p now w) as [[response|p'] w'].
Qed.

Lemma grows_purchase env req now w : grows w (snd (purchase env req now w)).
Proof.
  unfold purchase. destruct (already_completed _ w); [apply grows_refl|].
  pose proof (grows_purchase_loop env (PurchaseRequest.package_rates req) [] w)
    as Hloop.
  unfold purchaseAllLabels.
  destruct (purchase_loop env _ [] w) as [[labels|message] w1];
    simpl in Hloop; [|exact Hloop].
  eapply grows_trans; [exact Hloop | apply grows_complete_purchase].
Qed.

Lemma grows_serve env r w : grows w (snd (serve env r w)).
Proof.
  destruct r as [url|packages destination|req now]; cbn [serve snd];
    try apply grows_refl.
  pose proof (grows_purchase env req now w) as Hgrows.
  by destruct (purchase env req now w).
Qed.

(** X16: the server takes nothing back. Over any sequence of requests
    handled one after another, and over any interleaving of purchase
    requests in flight together, the calls made to the carrier's label
    service and the print jobs posted only get longer, and a key that has
    an order keeps having one (under interleaving the order itself may be
    replaced). *)
Theorem nothing_is_taken_back env :
  (forall requests w, grows w (serve_all env requests w))
  /\ (forall events s, grows (snd s) (snd (run env events s))).
Proof.
  split.
  - unfold serve_all. intros requests.
    induction requests as [|r requests IH]; intros w; simpl.
    + apply grows_refl.
    + eapply grows_trans; [apply grows_serve | apply IH].
  - unfold run. intros events.
    induction events as [|e events IH]; intros s; simpl.
    + apply grows_refl.
    + eapply grows_trans; [apply grows_step | apply IH].
Qed.

Lemma complete_purchase_jobs env req labels now w base64Html :
  printer_not_configured env = false ->
  (forall history job, reached env history job = true) ->
  Env.packing_slip_base64 env (PurchaseRequest.destination req)
    (PurchaseRequest.packages req) labels (PurchaseRequest.selectedRate req)
  = Return base64Html ->
  printjobs (snd (complete_purchase env req labels now w))
  ≡ₚ (printjobs w
      ++ slip_job env (PurchaseRequest.destination req) base64Html
         :: imap (label_job env
                    (Destination.name (PurchaseRequest.destination req)))
              (map LabelResult.label_url labels))%list.
Proof.
  intros Hconfigured Hreached Hslip.
  set (name := Destination.name (PurchaseRequest.destination req)).
  set (urls := map LabelResult.label_url labels).
  set (slip := slip_job env (PurchaseRequest.destination req) base64Html).
  assert (forall i l w0,
            print_loop env name i l w0
            = (true,
               after_jobs (imap (fun k => label_job env name (i + k)) l) w0))
    as Hloop.
  { intros i l w0. apply print_loop_reached. intros k url _. apply Hreached. }
  assert (forall w0, exists printed,
            printPackingSlip env (PurchaseRequest.destination req)
              (PurchaseRequest.packages req) labels
              (PurchaseRequest.selectedRate req) w0
            = (printed, record_printjob slip w0)) as Hprinted.
  { intros w0. unfold printPackingSlip. rewrite Hconfigured, Hslip.
    pose proof (Hreached (printjobs w0) slip) as Hreach.
    unfold reached, slip, slip_job in Hreach.
    destruct (Env.post_printjobs env (printjobs w0) _); [done|].
    eexists. reflexivity. }
  unfold complete_purchase, complete_purchase_body.
  cbn [PurchaseBody.of_request PurchaseBody.packages
       PurchaseBody.destination PurchaseBody.pkgId
       PurchaseBody.selectedRate packages_listed].
  rewrite logOrderDetails_shaped, listed_shaped, Hconfigured.
  fold name urls. rewrite Hloop.
  destruct (Hprinted
              (after_jobs
                 (imap (fun k => label_job env name (0 + k)) (take 1 urls)) w))
    as [printed ->].
  rewrite Hloop.
  assert (forall jobs w0 w',
            printjobs w' = printjobs w0 ->
            printjobs (after_jobs jobs w') = (printjobs w0 ++ jobs)%list)
    as Hjobs.
  { intros jobs w0 w' <-. apply after_jobs_world. }
  assert (printjobs
            (after_jobs
               (imap (fun k => label_job env name (1 + k)) (drop 1 urls))
               (record_printjob slip
                  (after_jobs
                     (imap (fun k => label_job env name (0 + k))
                        (take 1 urls)) w)))
          ≡ₚ (printjobs w ++ slip :: imap (label_job env name) urls)%list)
    as Hposted.
  { destruct (after_jobs_world
                (imap (fun k => label_job env name (1 + k)) (drop 1 urls))
                (record_printjob slip
                   (after_jobs
                      (imap (fun k => label_job env name (0 + k))
                         (take 1 urls)) w))) as (_ & _ & ->).
    cbn [printjobs record_printjob].
    destruct (after_jobs_world
                (imap (fun k => label_job env name (0 + k)) (take 1 urls)) w)
      as (_ & _ & ->).
    rewrite <- !app_assoc. apply Permutation_app_head.
    destruct urls as [|url rest]; [done|].
    cbn [take drop imap app]. apply perm_swap. }
  destruct (idempotency_key (PurchaseRequest.pkgId req)); exact Hposted.
Qed.

(** X17: a purchase that is answered with its labels sends them all to the
    printer, and one packing slip. With the printer configured, its
    service reached and the slip rendered, the print jobs posted by a
    successful purchase are, up to their order, one job for each label
    returned, with the label's URL, and the job of the packing slip. *)
Theorem purchase_prints_labels_and_slip env req now w labels w1 base64Html :
  already_completed (PurchaseRequest.pkgId req) w = false ->
  purchaseAllLabels env (PurchaseRequest.package_rates req) w
  = (Return labels, w1) ->
  printer_not_configured env = false ->
  (forall history job, reached env history job = true) ->
  Env.packing_slip_base64 env (PurchaseRequest.destination req)
    (PurchaseRequest.packages req) labels (PurchaseRequest.selectedRate req)
  = Return base64Html ->
  printjobs (snd (purchase env req now w))
  ≡ₚ (printjobs w
      ++ slip_job env (PurchaseRequest.destination req) base64Html
         :: imap (label_job env
                    (Destination.name (PurchaseRequest.destination req)))
              (map LabelResult.label_url labels))%list.
Proof.
  intros Hfresh Hall Hconfigured Hreached Hslip.
  unfold purchase. rewrite Hfresh, Hall.
  rewrite (complete_purchase_jobs env req labels now w1 base64Html) by done.
  destruct (purchaseAllLabels_frame env (PurchaseRequest.package_rates req) w)
    as [_ Hjobs].
  rewrite Hall in Hjobs. simpl in Hjobs. by rewrite Hjobs.
Qed.

Lemma purchase_prints_labels_and_slip_witness :
  exists labels,
    fst (purchase Examples.shop Examples.order_1 "2024-05-01T10:00:00.000Z"
           initial)
    = respond 200 (LabelsBody true labels)
    /\ printjobs
         (snd (purchase Examples.shop Examples.order_1
                 "2024-05-01T10:00:00.000Z" initial))
       ≡ₚ ([] ++ slip_job Examples.shop Examples.home "PGh0bWw+"
                 :: imap (label_job Examples.shop
                            (Destination.name Examples.home))
                      (map LabelResult.label_url labels))%list.
Proof.
  eexists. split; [vm_compute; reflexivity|].
  eapply (purchase_prints_labels_and_slip Examples.shop Examples.order_1
            "2024-05-01T10:00:00.000Z" initial).
  - reflexivity.
  - vm_compute. reflexivity.
  - reflexivity.
  - intros history job. reflexivity.
  - reflexivity.
Defined.

(** ** The request handler *)

(** X18: only [POST /api/purchase] changes the state of the server. A
    request after which the orders, the calls to the carrier's label
    service or the print jobs are not what they were has the method [POST]
    and exactly the URL [/api/purchase], and the state is the one left by
    the purchase route; an [OPTIONS] request, any other method, and the URL
    with a query string change nothing. *)
Theorem only_a_purchase_changes_the_state site env method url body now w :
  snd (handler site env method url body now w) <> w ->
  method = "POST" /\ url = "/api/purchase"
  /\ snd (handler site env method url body now w)
     = snd (purchase env body now w).
Proof.
  unfold handler.
  destruct (String.eqb method "OPTIONS"); [done|].
  destruct (String.prefix "/api/order/" url && String.eqb method "GET");
    [done|].
  destruct (String.eqb url "/api/rates" && String.eqb method "POST"); [done|].
  destruct (String.eqb_spec url "/api/purchase") as [->|_]; [|done].
  destruct (String.eqb_spec method "POST") as [->|_]; [|done].
  cbn [andb]. intros _. by destruct (purchase env body now w).
Qed.

Lemma only_a_purchase_changes_the_state_witness :
  snd (handler Scenarios.shop_files Examples.shop "POST" "/api/purchase"
         Examples.order_1 "2024-05-01T10:00:00.000Z" initial)
  = snd (purchase Examples.shop Examples.order_1 "2024-05-01T10:00:00.000Z"
           initial).
Proof.
  apply (only_a_purchase_changes_the_state Scenarios.shop_files Examples.shop
           "POST" "/api/purchase" Examples.order_1 "2024-05-01T10:00:00.000Z"
           initial).
  intros Hsame. apply (f_equal transactions) in Hsame.
  vm_compute in Hsame. discriminate Hsame.
Defined.

Lemma up_to_append sep s rest :
  up_to sep (s ++ String sep rest) = up_to sep s.
Proof.
  induction s as [|c s IH]; simpl.
  - by rewrite Ascii.eqb_refl.
  - destruct (Ascii.eqb c sep); [done | by rewrite IH].
Qed.

Lemma prefix_append_question p s query :
  up_to "?" p = p ->
  String.prefix p s = false ->
  String.prefix p (s ++ String "?" query) = false.
Proof.
  revert s. induction p as [|a p IH]; intros s Hp.
  - by destruct s.
  - simpl in Hp. destruct (Ascii.eqb_spec a "?") as [->|Ha]; [done|].
    injection Hp as Hp. destruct s as [|b s]; simpl.
    + intros _. by destruct (ascii_dec a "?").
    + destruct (ascii_dec a b); [by apply IH | done].
Qed.

(** X19: a static file is served whatever follows the first question mark
    of the URL. A [GET] request for a URL that is not under [/api/order/],
    followed by a question mark and any text, is answered with the static
    file of the URL alone, and the state is unchanged: the admin page is
    served for [/admin.html?pkg=...]. *)
Theorem static_files_ignore_the_query site env url query body now w :
  String.prefix "/api/order/" url = false ->
  handler site env "GET" (url ++ String "?" query) body now w
  = (Static (serve_static site url), w).
Proof.
  intros Hurl. unfold handler. cbn [String.eqb Ascii.eqb Bool.eqb].
  rewrite (prefix_append_question "/api/order/" url query eq_refl Hurl).
  cbn [andb]. rewrite !andb_false_r.
  unfold serve_static. by rewrite up_to_append.
Qed.

Lemma static_files_ignore_the_query_witness :
  handler Scenarios.shop_files Examples.shop "GET"
    ("/admin.html" ++ String "?" "pkg=order-1") Examples.order_1
    "2024-05-01T10:00:00.000Z" initial
  = (Static {| status := 200;
               contentType := Some "text/html";
               content := "<html></html>" |},
     initial).
Proof.
  apply (static_files_ignore_the_query Scenarios.shop_files Examples.shop
           "/admin.html" "pkg=order-1" Examples.order_1
           "2024-05-01T10:00:00.000Z" initial).
  reflexivity.
Defined.
